(** * The execution-and-caching pipeline of a machine

    A shallow embedding of [lib/Machine.prototype.exec.js] (the caching
    [exec]) and of the parts of [lib/Machine.js] it relies on ([warn],
    [setExits], the plain [exec]).

    The JavaScript is written in continuation-passing style: every store
    operation takes a callback, and the callback runs in a later turn of the
    event loop.  One synchronous stretch of code is embedded as a _turn_: the
    list of the effects it issues, in program order.  An effect that takes a
    callback carries the callback as a function from the callback's arguments
    to the turn that the callback then runs. *)

From stdpp Require Import gmap strings list fin_maps sorting.
From Stdlib Require Import ZArith.

#[local] Set Warnings "-register-all".
#[local] Open Scope Z_scope.

(** ** JavaScript values *)

(** Objects and functions have an identity: [===] on them compares
    addresses.  A plain object carries its address and its properties; a
    function is taken to have no properties of its own.  Numbers are whole:
    times are milliseconds, counts and buffers are integers, and NaN only
    appears as the [None] of a conversion. *)
Definition addr := positive.
Bind Scope positive_scope with addr.

Inductive value : Type :=
| VUndefined
| VNull
| VBool (b : bool)
| VNum (n : Z)
| VStr (s : string)
| VDate (t : option Z)          (* [None] is an Invalid Date *)
| VFun (a : addr)
| VObj (a : addr) (props : gmap string value).

(** [if (v)], [!v], [a || b]. *)
Definition truthy (v : value) : bool :=
  match v with
  | VUndefined | VNull => false
  | VBool b => b
  | VNum n => negb (n =? 0)
  | VStr s => negb (String.eqb s "")
  | VDate _ | VFun _ | VObj _ _ => true
  end.

(** [typeof v !== 'undefined'] *)
Definition is_defined (v : value) : bool :=
  match v with VUndefined => false | _ => true end.

(** [v.k] on a value that is known not to be [undefined] or [null]. *)
Definition get (k : string) (v : value) : value :=
  match v with
  | VObj _ props => default VUndefined (props !! k)
  | _ => VUndefined
  end.

(** lodash's [_.isObject] and [_.isFunction]. *)
Definition isObject (v : value) : bool :=
  match v with VObj _ _ | VFun _ | VDate _ => true | _ => false end.

Definition isFunction (v : value) : bool :=
  match v with VFun _ => true | _ => false end.

(** [name !== v] for a property name [name]. *)
Definition strict_neq_name (name : string) (v : value) : bool :=
  match v with VStr s => negb (String.eqb name s) | _ => true end.

(** What the libraries and the language do outside the cases written out
    below: lodash's [_.extend] when one of its operands is not a plain
    object, the conversion of a string to a number, and the enumerable
    properties of the function that node-switchback builds from a handler
    table or a callback. *)
Class Externals := {
  extend_other : value -> value -> value;
  string_to_number : string -> option Z;
  switchback_props : value -> gmap string value
}.

Section Language.
Context `{Externals}.

(** ToNumber; [None] is NaN. *)
Definition to_number (v : value) : option Z :=
  match v with
  | VNum n => Some n
  | VDate t => t
  | VBool b => Some (if b then 1 else 0)
  | VNull => Some 0
  | VStr s => string_to_number s
  | VUndefined | VFun _ | VObj _ _ => None
  end.

(** [n > v] where [n] is a number or [undefined]. *)
Definition js_gt (n : option Z) (v : value) : bool :=
  match n, to_number v with
  | Some a, Some b => b <? a
  | _, _ => false
  end.

(** [_.extend(dest, src)]: the own properties of [src] are assigned to
    [dest], which is returned. *)
Definition extend (dest src : value) : value :=
  match dest, src with
  | VObj a p, VObj _ q => VObj a (q ∪ p)
  | _, _ => extend_other dest src
  end.

(** One key of [_.defaults(object, defs)]: assigned only where the object
    has [undefined]. *)
Definition default_prop (k : string) (v : value)
    (props : gmap string value) : gmap string value :=
  if is_defined (default VUndefined (props !! k)) then props
  else <[k := v]> props.
End Language.

(** ** The machine instance *)

(** The fields of [this] that [exec] and [warn] read or write. *)
Record Machine := mkMachine {
  fn : value;
  _configuredInputs : gmap string value;
  _configuredExits : gmap string value;
  _dependencies : value;
  _configuredContexts : value;
  _cacheSettings : value;
  onWarn : value
}.

Definition set_configuredExits (x : gmap string value) (m : Machine) : Machine :=
  mkMachine (fn m) (_configuredInputs m) x (_dependencies m)
            (_configuredContexts m) (_cacheSettings m) (onWarn m).

Definition set_configuredInputs (x : gmap string value) (m : Machine) : Machine :=
  mkMachine (fn m) x (_configuredExits m) (_dependencies m)
            (_configuredContexts m) (_cacheSettings m) (onWarn m).

Definition set_cacheSettings (x : value) (m : Machine) : Machine :=
  mkMachine (fn m) (_configuredInputs m) (_configuredExits m) (_dependencies m)
            (_configuredContexts m) x (onWarn m).

(** ** The cache store's interface *)

(** A cache entry as the store returns it. *)
Record entry := mkEntry {
  entry_hash : value;
  entry_data : value;
  entry_createdAt : Z
}.

(** The record handed to [create]. *)
Record new_entry := mkNewEntry {
  new_hash : value;
  new_data : value
}.

(** The criteria objects that this file builds:
    [{ where: { createdAt: { op: date }, hash: h }, sort: s, limit: l, skip: k }]. *)
Inductive comparator := GT | LE.

Record criteria := mkCriteria {
  where_createdAt : comparator * value;
  where_hash : value;
  crit_sort : option string;
  crit_limit : option Z;
  crit_skip : option value
}.

(** ** Effects and turns *)

(** What [fn] is applied to as [this]. *)
Inductive receiver :=
| ThisMachine (m : Machine)
| ThisValue (v : value).

(** The functions of an exit table: an exit as the caller configured it, or
    the closure that [exec] puts in place of the cacheable exit (it captures
    [self], [_cache], [hash] and the configured exit [fn]). *)
Inductive handler :=
| Configured (f : value)
| CacheThenForward (self : Machine) (_cache : value) (hash : value) (f : value).

(** A property of the function that node-switchback builds from an exit
    table: a function of the table, or what the library puts there itself.
    The library marks its switchbacks with [_TELLTALE], gives them an
    [inspect] method, and supplies a handler of its own for each of the
    cases [success], [error] and [invalid] that the table leaves out; such a
    handler throws an error that says that the case has no handler. *)
Inductive member :=
| Case (h : handler)
| DefaultCase (name : string)
| Telltale
| Inspect.

Inductive cmd : Type :=
| CalculateHash (self : Machine) (cb : value -> value -> list cmd)
| ModelFind (callee : value) (c : criteria) (cb : value -> list entry -> list cmd)
| ModelCount (callee : value) (c : criteria) (cb : value -> option Z -> list cmd)
| ModelDestroy (callee : value) (c : criteria) (cb : value -> list cmd)
| ModelCreate (callee : value) (r : new_entry) (cb : value -> list cmd)
| CallExit (f : value) (args : list value)
| CallOnWarn (f : value) (args : list value)
| ConsoleError (args : list value)
| SwitchbackUnhandled (name : string) (args : list value)
| RunFn (f : value) (this : receiver) (inputs : gmap string value)
        (exits : gmap string member) (env : value)
| Throw (msg : string).

Definition turn := list cmd.

(** ** lib/Machine.js: warnings *)

(** [Machine.prototype.warn]: the configured [onWarn], or [console.error]. *)
Definition warn (this : Machine) (args : list value) : turn :=
  if truthy (onWarn this) then [CallOnWarn (onWarn this) args]
  else [ConsoleError args].

(** [if (err) { self.warn(err); }] *)
Definition warn_if (self : Machine) (err : value) : turn :=
  if truthy err then warn self [err] else [].

(** ** Exit tables and node-switchback *)

(** Calling a function of an exit table.  The closure of the cacheable exit
    is
    [function (data) { _cache.model.create({hash: hash, data: data})
       .exec(function (err) { if (err) { self.warn(err); } fn(data); }); }]. *)
Definition invoke_handler (h : handler) (args : list value) : turn :=
  match h with
  | Configured f => [CallExit f args]
  | CacheThenForward self _cache hash f =>
      let data := hd VUndefined args in
      [ModelCreate (get "create" (get "model" _cache))
         {| new_hash := hash; new_data := data |}
         (fun err => warn_if self err ++ [CallExit f [data]])]
  end.

(** What node-switchback puts on every switchback. *)
Definition library_members : gmap string member :=
  list_to_map [("success", DefaultCase "success"); ("error", DefaultCase "error");
               ("invalid", DefaultCase "invalid");
               ("_TELLTALE", Telltale); ("inspect", Inspect)].

(** [switchback(handlers)] for a table of functions: a function that carries
    the functions of the table as properties under their names, and the
    library's members under the names that the table leaves free.  It is
    represented by its properties. *)
Definition switchback_of (handlers : gmap string handler) : gmap string member :=
  (Case <$> handlers) ∪ library_members.

(** Calling a property of a switchback: the library's handler of a case
    throws its error, the mark is not a function, and [inspect] only gives a
    description. *)
Definition invoke_member (m : member) (args : list value) : turn :=
  match m with
  | Case h => invoke_handler h args
  | DefaultCase name => [SwitchbackUnhandled name args]
  | Telltale => [Throw "TypeError"]
  | Inspect => []
  end.

(** [exits.name(args)]; a name under which the switchback has nothing is not
    a function. *)
Definition invoke_named (exits : gmap string member) (name : string)
    (args : list value) : turn :=
  match exits !! name with
  | Some m => invoke_member m args
  | None => [Throw "TypeError"]
  end.

(** Applying the switchback itself, [exits(err, args)]: it goes to [error]
    with all the arguments when [err] is truthy and to [success] with the
    remaining arguments otherwise. *)
Definition switchback_apply (exits : gmap string member) (args : list value) : turn :=
  if truthy (hd VUndefined args) then invoke_named exits "error" args
  else invoke_named exits "success" (tl args).

(** [switchback(exits)] over exits as configured. *)
Definition switchback (exits : gmap string value) : gmap string member :=
  switchback_of (Configured <$> exits).

Section Pipeline.
Context `{Externals}.

(** [Machine.prototype.setExits] *)
Definition setExits (this : Machine) (configuredExits : value) : Machine :=
  set_configuredExits (switchback_props configuredExits ∪ _configuredExits this) this.

(** [Machine.prototype.exec] of lib/Machine.js, which does no caching. *)
Definition exec (configuredExits : value) (this : Machine) : Machine * turn :=
  let this := if truthy configuredExits then setExits this configuredExits else this in
  (this,
   [RunFn (fn this) (ThisMachine this) (_configuredInputs this)
          (switchback (_configuredExits this)) (_dependencies this)]).

(** ** lib/Machine.prototype.exec.js *)

(** [buildFindCriteria(options)] *)
Record find_options := mkFindOptions {
  opt_hash : value;
  opt_expirationDate : value
}.

Definition buildFindCriteria (options : find_options) : criteria :=
  {| where_createdAt := (GT, opt_expirationDate options);
     where_hash := opt_hash options;
     crit_sort := Some "createdAt DESC";
     crit_limit := Some 1;
     crit_skip := None |}.

(** The criteria of the garbage collector's [count] and [destroy]. *)
Definition gc_count_criteria (_cache hash : value) : criteria :=
  {| where_createdAt := (LE, get "expirationDate" _cache);
     where_hash := hash;
     crit_sort := None;
     crit_limit := None;
     crit_skip := None |}.

Definition gc_destroy_criteria (_cache hash : value) : criteria :=
  {| where_createdAt := (LE, get "expirationDate" _cache);
     where_hash := hash;
     crit_sort := Some "createdAt DESC";
     crit_limit := None;
     crit_skip := Some (get "maxOldEntriesBuffer" _cache) |}.

(** The test that decides whether [_cache] is kept or set to [false]. *)
Definition cache_is_valid (_cache : value) : bool :=
  isObject _cache &&
  isObject (get "model" _cache) &&
  isFunction (get "find" (get "model" _cache)) &&
  isFunction (get "create" (get "model" _cache)).

(** [_.defaults(_cache, { ttl: 3 * 60 * 60 * 1000, maxOldEntriesBuffer: 0,
    exit: 'success' })] *)
Definition apply_defaults (props : gmap string value) : gmap string value :=
  default_prop "exit" (VStr "success")
    (default_prop "maxOldEntriesBuffer" (VNum 0)
       (default_prop "ttl" (VNum (3 * 60 * 60 * 1000)) props)).

(** The time values of a [Date] go up to 8.64e15 milliseconds on either
    side of the epoch; [new Date(n)] for a number beyond them, or for NaN, is
    an Invalid Date. *)
Definition max_time : Z := 8640000000000000.

Definition new_Date (n : option Z) : value :=
  VDate (t ← n; if Z.abs t <=? max_time then Some t else None).

(** [new Date((new Date()) - ttl)] *)
Definition expiration (now : Z) (ttl : value) : value :=
  new_Date (t ← to_number ttl; Some (now - t)).

(** The valid branch: defaults, then [_cache.expirationDate]. *)
Definition normalize (now : Z) (_cache : value) : value :=
  match _cache with
  | VObj a props =>
      let props := apply_defaults props in
      VObj a (<["expirationDate" :=
                  expiration now (default VUndefined (props !! "ttl"))]> props)
  | _ => _cache
  end.

(** The exit table that is built for [fn]: the [_.reduce] over the
    configured exits, before node-switchback wraps it. *)
Definition interceptedExits (self : Machine) (_cache hash : value)
    : gmap string handler :=
  map_imap (fun exitName f =>
    Some (if negb (truthy _cache) || negb (truthy hash)
             || strict_neq_name exitName (get "exit" _cache)
          then Configured f
          else CacheThenForward self _cache hash f))
    (_configuredExits self).

(** The callback of the garbage collector's [destroy]. *)
Definition on_destroy (self : Machine) (err : value) : turn :=
  warn_if self err.

(** The callback of the garbage collector's [count]. *)
Definition on_count (self : Machine) (_cache hash : value)
    (err : value) (numOldCacheEntries : option Z) : turn :=
  warn_if self err ++
  (if js_gt numOldCacheEntries (get "maxOldEntriesBuffer" _cache) then
     let destroy := get "destroy" (get "model" _cache) in
     if isFunction destroy then
       [ModelDestroy destroy (gc_destroy_criteria _cache hash) (on_destroy self)]
     else [Throw "TypeError"]
   else []).

(** [_cacheNotAnOption_justRunMachine(err)], with the [hash] variable as it
    stands when the function is called. *)
Definition _cacheNotAnOption_justRunMachine (self : Machine)
    (_cache hash : value) (err : value) : turn :=
  let run :=
    [RunFn (fn self) (ThisValue (_configuredContexts self))
           (_configuredInputs self)
           (switchback_of (interceptedExits self _cache hash))
           (_configuredContexts self)] in
  warn_if self err ++
  (if truthy _cache then
     let count := get "count" (get "model" _cache) in
     if isFunction count then
       ModelCount count (gc_count_criteria _cache hash)
                  (on_count self _cache hash) :: run
     else [Throw "TypeError"]
   else run).

(** The callback of [find].  A hit is
    [cached.length && typeof cached[0].data !== 'undefined']. *)
Definition on_find (self : Machine) (_cache hash : value)
    (err : value) (cached : list entry) : turn :=
  if truthy err then _cacheNotAnOption_justRunMachine self _cache hash err
  else match cached with
       | newestCacheEntry :: _ =>
           if is_defined (entry_data newestCacheEntry) then
             switchback_apply (switchback (_configuredExits self))
                              [VNull; entry_data newestCacheEntry]
           else _cacheNotAnOption_justRunMachine self _cache hash VUndefined
       | [] => _cacheNotAnOption_justRunMachine self _cache hash VUndefined
       end.

(** The callback of [calculateHash]; [hash] is assigned only when there is
    no error. *)
Definition on_hash (self : Machine) (_cache : value)
    (err : value) (_calculatedHash : value) : turn :=
  if truthy err then
    _cacheNotAnOption_justRunMachine self _cache VUndefined err
  else
    let hash := _calculatedHash in
    [ModelFind (get "find" (get "model" _cache))
       (buildFindCriteria {| opt_hash := hash;
                             opt_expirationDate := get "expirationDate" _cache |})
       (on_find self _cache hash)].

Definition _tryCacheLookup (self : Machine) (_cache : value) : turn :=
  if negb (truthy _cache) then
    _cacheNotAnOption_justRunMachine self _cache VUndefined VUndefined
  else [CalculateHash self (on_hash self _cache)].

(** The reserved [_cache] input: merged into the cache settings and
    deleted from the inputs, when it is truthy. *)
Definition consume_cache_input (this : Machine) : Machine :=
  let c := default VUndefined (_configuredInputs this !! "_cache") in
  if truthy c then
    set_configuredInputs (delete "_cache" (_configuredInputs this))
      (set_cacheSettings (extend (_cacheSettings this) c) this)
  else this.

(** The local [_cache]: the settings object, normalized in place, or
    [false]. *)
Definition local_cache (now : Z) (this : Machine) : value :=
  if cache_is_valid (_cacheSettings this)
  then normalize now (_cacheSettings this)
  else VBool false.

(** [Machineºprototypeºexec(configuredExits)], run at time [now]: the
    machine as the synchronous part leaves it, and the first turn. *)
Definition Machine_prototype_exec (configuredExits : value) (now : Z)
    (this : Machine) : Machine * turn :=
  let this := if truthy configuredExits then setExits this configuredExits else this in
  let this := consume_cache_input this in
  let _cache := local_cache now this in
  let self :=
    if cache_is_valid (_cacheSettings this)
    then set_cacheSettings _cache this else this in
  (self, _tryCacheLookup self _cache).
End Pipeline.

(** ** What may come after a turn *)

(** A callback runs, in a later turn, with whatever arguments the store or
    the hash function gives it. *)
Inductive calls_back : cmd -> turn -> Prop :=
| back_hash self cb err h : calls_back (CalculateHash self cb) (cb err h)
| back_find callee c cb err cached : calls_back (ModelFind callee c cb) (cb err cached)
| back_count callee c cb err n : calls_back (ModelCount callee c cb) (cb err n)
| back_destroy callee c cb err : calls_back (ModelDestroy callee c cb) (cb err)
| back_create callee r cb err : calls_back (ModelCreate callee r cb) (cb err).

(** The unit's [fn] may use its switchback in any way: call any of its
    properties with any arguments, or apply the switchback, any number of
    times. *)
Inductive unit_uses : cmd -> turn -> Prop :=
| uses_handler f this inputs exits env name m args :
    exits !! name = Some m ->
    unit_uses (RunFn f this inputs exits env) (invoke_member m args)
| uses_switchback f this inputs exits env args :
    unit_uses (RunFn f this inputs exits env) (switchback_apply exits args).

(** [issued next t c]: the effect [c] is issued in the turn [t], or in a
    turn that follows from an effect of [t] by [next]. *)
Inductive issued (next : cmd -> turn -> Prop) : turn -> cmd -> Prop :=
| issued_here t c : c ∈ t -> issued next t c
| issued_later t c0 t' c :
    c0 ∈ t -> next c0 t' -> issued next t' c -> issued next t c.

(** Everything a run may issue, whatever the store, the hash function and
    the unit do. *)
Definition may_issue : turn -> cmd -> Prop :=
  issued (fun c t => calls_back c t \/ unit_uses c t).

(** What the pipeline issues by itself, leaving out what follows from the
    unit's use of its exits. *)
Definition pipeline_issues : turn -> cmd -> Prop := issued calls_back.

Definition is_RunFn (c : cmd) : Prop :=
  match c with RunFn _ _ _ _ _ => True | _ => False end.

Definition is_store_op (c : cmd) : Prop :=
  match c with
  | ModelFind _ _ _ | ModelCount _ _ _ | ModelDestroy _ _ _ | ModelCreate _ _ _ => True
  | _ => False
  end.

Definition is_gc_op (c : cmd) : Prop :=
  match c with
  | ModelCount _ _ _ | ModelDestroy _ _ _ => True
  | _ => False
  end.

(** An error that reaches the caller: an exception, or an exit called by the
    pipeline itself. *)
Definition is_fatal (c : cmd) : Prop :=
  match c with
  | Throw _ | CallExit _ _ | SwitchbackUnhandled _ _ => True
  | _ => False
  end.

(** An effect without a callback. *)
Definition is_leaf (c : cmd) : Prop :=
  match c with
  | CallExit _ _ | CallOnWarn _ _ | ConsoleError _ | SwitchbackUnhandled _ _
  | Throw _ => True
  | _ => False
  end.

(** Membership in a turn that is written out. *)
Ltac elems :=
  repeat match goal with
  | H : _ ∈ [] |- _ => by apply elem_of_nil in H
  | H : _ ∈ _ :: _ |- _ => apply elem_of_cons in H as [->|H]
  | H : _ ∈ _ ++ _ |- _ => apply elem_of_app in H as [H|H]
  end.

(** ** Runs *)

Section Runs.
Context `{Externals}.

(** The machine as an invocation sets it up before the validity test. *)
Definition prepared (configuredExits : value) (this : Machine) : Machine :=
  consume_cache_input
    (if truthy configuredExits then setExits this configuredExits else this).

(** Caching is enabled for a run when the settings, after the reserved
    input was merged in, pass the validity test. *)
Definition cache_enabled (configuredExits : value) (this : Machine) : bool :=
  cache_is_valid (_cacheSettings (prepared configuredExits this)).

(** The [self] and the [_cache] that the callbacks of a run close over. *)
Definition run_self (configuredExits : value) (now : Z) (this : Machine) : Machine :=
  (Machine_prototype_exec configuredExits now this).1.

Definition run_cache (configuredExits : value) (now : Z) (this : Machine) : value :=
  local_cache now (prepared configuredExits this).

(** A reply to [find] that respects the [limit] of the query. *)
Definition within_limit (c : criteria) (cached : list entry) : Prop :=
  match crit_limit c with
  | Some n => Z.of_nat (length cached) <= n
  | None => True
  end.

(** The store of a run exposes [count] and [destroy] too. *)
Definition store_complete (_cache : value) : bool :=
  isFunction (get "count" (get "model" _cache)) &&
  isFunction (get "destroy" (get "model" _cache)).

(** The one call of [fn] in the pipeline. *)
Definition the_run (self : Machine) (_cache hash : value) : cmd :=
  RunFn (fn self) (ThisValue (_configuredContexts self)) (_configuredInputs self)
        (switchback_of (interceptedExits self _cache hash)) (_configuredContexts self).

(** The turn of a fallback: the warning, the garbage collector's [count],
    and [fn]. *)
Definition fallback_turn (self : Machine) (_cache hash err : value) : turn :=
  warn self [err] ++
  [ModelCount (get "count" (get "model" _cache)) (gc_count_criteria _cache hash)
              (on_count self _cache hash);
   RunFn (fn self) (ThisValue (_configuredContexts self)) (_configuredInputs self)
         (switchback_of (interceptedExits self _cache hash)) (_configuredContexts self)].

(** A first turn that falls back to the unit [f] whenever the hash or the
    lookup fails: the turn asks for the hash; an error there, or an error
    of the [find] that follows a hash, leads to a fallback turn; and a
    fallback turn issues nothing fatal by itself. *)
Definition falls_back (f : value) (t : turn) : Prop :=
  exists self _cache,
    fn self = f /\
    t = [CalculateHash self (on_hash self _cache)] /\
    (forall err h, truthy err = true ->
       on_hash self _cache err h = fallback_turn self _cache VUndefined err) /\
    (forall errh h, truthy errh = false ->
       exists c,
         on_hash self _cache errh h =
           [ModelFind (get "find" (get "model" _cache)) c (on_find self _cache h)] /\
         forall err cached, truthy err = true ->
           on_find self _cache h err cached = fallback_turn self _cache h err) /\
    (forall hash err c,
       pipeline_issues (fallback_turn self _cache hash err) c -> ~ is_fatal c).

(** Invocations one after the other on the same machine, each with its
    argument and its time: the first turn of each. *)
Fixpoint exec_repeatedly (runs : list (value * Z)) (this : Machine) : list turn :=
  match runs with
  | [] => []
  | (configuredExits, now) :: runs =>
      let r := Machine_prototype_exec configuredExits now this in
      r.2 :: exec_repeatedly runs r.1
  end.
End Runs.

(** ** A reference store *)

(** Modelled from the spec: the cache store is owned by the caller and its
    code is not in the repository; this is the store capability contract of
    the external interfaces: [find] filters on the hash and on [createdAt]
    against a cutoff, sorts newest first and limits; [count] counts the
    entries that pass the same kind of filter; [destroy] deletes them,
    newest first, leaving out the first [skip]; [create] adds an entry
    stamped with the time of creation. *)
Module Store.

(** [===] *)
Definition strict_eq (a b : value) : bool :=
  match a, b with
  | VUndefined, VUndefined | VNull, VNull => true
  | VBool x, VBool y => Bool.eqb x y
  | VNum x, VNum y => x =? y
  | VStr x, VStr y => String.eqb x y
  | VFun x, VFun y | VObj x _, VObj y _ => Pos.eqb x y
  | _, _ => false
  end.

Definition timestamp (v : value) : option Z :=
  match v with VDate t => t | VNum n => Some n | _ => None end.

Definition compare_createdAt (op : comparator) (createdAt cutoff : Z) : bool :=
  match op with
  | GT => cutoff <? createdAt
  | LE => createdAt <=? cutoff
  end.

(** The [where] clause. *)
Definition matches (c : criteria) (e : entry) : bool :=
  strict_eq (where_hash c) (entry_hash e) &&
  match timestamp (where_createdAt c).2 with
  | Some cutoff => compare_createdAt (where_createdAt c).1 (entry_createdAt e) cutoff
  | None => false
  end.

(** ['createdAt DESC'] *)
Definition newer_or_same (e1 e2 : entry) : Prop :=
  entry_createdAt e2 <= entry_createdAt e1.

#[global] Instance newer_or_same_dec e1 e2 : Decision (newer_or_same e1 e2) :=
  decide (entry_createdAt e2 <= entry_createdAt e1).

Definition newest_first (l : list entry) : list entry :=
  merge_sort newer_or_same l.

Definition sorted (c : criteria) (l : list entry) : list entry :=
  match crit_sort c with
  | Some _ => newest_first l
  | None => l
  end.

Definition skip_count (c : criteria) : nat :=
  match crit_skip c with
  | Some (VNum n) => Z.to_nat n
  | _ => 0%nat
  end.

Definition limited (c : criteria) (l : list entry) : list entry :=
  match crit_limit c with
  | Some n => take (Z.to_nat n) l
  | None => l
  end.

(** The entries a query selects, in order. *)
Definition selected (c : criteria) (s : list entry) : list entry :=
  limited c (drop (skip_count c) (sorted c (filter (fun e => matches c e) s))).

Definition find (c : criteria) (s : list entry) : list entry := selected c s.

Definition count (c : criteria) (s : list entry) : Z :=
  Z.of_nat (length (filter (fun e => matches c e) s)).

(** [destroy] keeps what the filter does not match and what [skip] leaves
    out; the store is a bag, its order carries no meaning. *)
Definition destroy (c : criteria) (s : list entry) : list entry :=
  filter (fun e => ¬ matches c e) s ++
  take (skip_count c) (sorted c (filter (fun e => matches c e) s)).

Definition create (now : Z) (r : new_entry) (s : list entry) : list entry :=
  s ++ [{| entry_hash := new_hash r; entry_data := new_data r;
           entry_createdAt := now |}].
End Store.

(** ** An event loop for sample runs *)

(** What an observer sees of a run. *)
Inductive event :=
| EvHash
| EvFind (c : criteria)
| EvCount (c : criteria)
| EvDestroy (c : criteria)
| EvCreate (r : new_entry)
| EvFn (inputs : gmap string value) (env : value)
| EvExit (f : value) (args : list value)
| EvWarn (args : list value)
| EvUnhandled (name : string)
| EvThrow.

(** The surroundings of a run: the clock, what the hash function answers,
    and what the unit does with its exits once it runs (each call in a turn
    of its own). *)
Record surroundings := {
  clock : Z;
  hash_reply : value * value;
  unit_calls : list (string * list value)
}.

(** One turn against the reference store, which never fails: the store
    after the turn, the events, and the turns that its effects queue.  An
    exception ends the turn. *)
Fixpoint run_turn (w : surroundings) (t : turn) (s : list entry)
    : list entry * list event * list turn :=
  match t with
  | [] => (s, [], [])
  | Throw _ :: _ => (s, [EvThrow], [])
  | c :: rest =>
      let '(s1, ev, queued) :=
        match c with
        | CalculateHash _ cb => (s, [EvHash], [cb (hash_reply w).1 (hash_reply w).2])
        | ModelFind _ q cb => (s, [EvFind q], [cb VNull (Store.find q s)])
        | ModelCount _ q cb => (s, [EvCount q], [cb VNull (Some (Store.count q s))])
        | ModelDestroy _ q cb => (Store.destroy q s, [EvDestroy q], [cb VNull])
        | ModelCreate _ r cb => (Store.create (clock w) r s, [EvCreate r], [cb VNull])
        | CallExit f args => (s, [EvExit f args], [])
        | CallOnWarn _ args | ConsoleError args => (s, [EvWarn args], [])
        | SwitchbackUnhandled name _ => (s, [EvUnhandled name], [])
        | RunFn _ _ inputs exits env =>
            (s, [EvFn inputs env],
             (fun call : string * list value => invoke_named exits call.1 call.2)
               <$> unit_calls w)
        | Throw _ => (s, [], [])
        end in
      let '(s2, ev', queued') := run_turn w rest s1 in
      (s2, ev ++ ev', queued ++ queued')
  end.

(** The loop takes the turns from the queue in order. *)
Fixpoint run_loop (fuel : nat) (w : surroundings) (queue : list turn)
    (s : list entry) : list entry * list event :=
  match fuel, queue with
  | O, _ | _, [] => (s, [])
  | S fuel, t :: queue =>
      let '(s1, ev, queued) := run_turn w t s in
      let '(s2, ev') := run_loop fuel w (queue ++ queued) s1 in
      (s2, ev ++ ev')
  end.

(** ** Sample data *)

Module Sample.
(** lodash 2 returns a destination that is not an object as it is.  The
    enumerable properties of the switchback of a table of exits are the
    exits, the library's handlers for the cases that the table leaves out,
    and the library's mark; the sample runs pass their exits as tables
    only. *)
Definition externals : Externals :=
  {| extend_other := fun dest _ => dest;
     string_to_number := fun _ => None;
     switchback_props := fun v =>
       match v with
       | VObj _ p =>
           p ∪ list_to_map [("success", VFun 91); ("error", VFun 92);
                            ("invalid", VFun 93);
                            ("_TELLTALE", VStr "a94hgd9gal2p_2m_GnSWITCHBACK")]
       | _ => ∅
       end |}.

Definition model : value :=
  VObj 10 (list_to_map [("find", VFun 11); ("create", VFun 12);
                        ("count", VFun 13); ("destroy", VFun 14)]).

Definition settings : value :=
  VObj 20 (list_to_map [("model", model); ("maxOldEntriesBuffer", VNum 1)]).

Definition exits : gmap string value :=
  list_to_map [("success", VFun 2); ("error", VFun 3); ("notFound", VFun 4)].

Definition dependencies : value :=
  VObj 5 (list_to_map [("helper", VFun 6)]).

(** A machine with a valid store and one input. *)
Definition machine : Machine :=
  {| fn := VFun 1;
     _configuredInputs := {[ "x" := VNum 7 ]};
     _configuredExits := exits;
     _dependencies := dependencies;
     _configuredContexts := VUndefined;
     _cacheSettings := settings;
     onWarn := VUndefined |}.

(** The same machine with [notFound] as its cacheable exit. *)
Definition custom_settings : value :=
  VObj 21 (list_to_map [("model", model); ("exit", VStr "notFound")]).

Definition custom_machine : Machine := set_cacheSettings custom_settings machine.

(** The same machine without cache settings. *)
Definition plain_machine : Machine := set_cacheSettings VUndefined machine.

(** A caller that passes [_cache: false]. *)
Definition opted_out_machine : Machine :=
  set_configuredInputs (<["_cache" := VBool false]> {[ "x" := VNum 7 ]}) plain_machine.

(** A caller that passes cache settings in the reserved input. *)
Definition override : value := VObj 22 {[ "ttl" := VNum 60000 ]}.

Definition overridden_machine : Machine :=
  set_configuredInputs (<["_cache" := override]> {[ "x" := VNum 7 ]}) machine.

(** A result object. *)
Definition result : value := VObj 30 {[ "answer" := VNum 42 ]}.

(** Three entries of one hash that are older than three hours at time
    1000. *)
Definition old_entries : list entry :=
  [ {| entry_hash := VStr "h1"; entry_data := VNum 1; entry_createdAt := -30000000 |};
    {| entry_hash := VStr "h1"; entry_data := VNum 2; entry_createdAt := -20000000 |};
    {| entry_hash := VStr "h1"; entry_data := VNum 3; entry_createdAt := -40000000 |} ].

(** An entry that holds it. *)
Definition fresh_entry : entry :=
  {| entry_hash := VStr "h1"; entry_data := result; entry_createdAt := 990 |}.

(** A call at time 1000 whose unit ends in [success] with the result, and
    one at time 2000 whose hash cannot be computed. *)
Definition first_call : surroundings :=
  {| clock := 1000; hash_reply := (VNull, VStr "h1");
     unit_calls := [("success", [result])] |}.

Definition failing_hash_call : surroundings :=
  {| clock := 2000; hash_reply := (VStr "not serializable", VUndefined);
     unit_calls := [("success", [result])] |}.
End Sample.

(** ** lib/Machine.js: configuration *)

(** lodash's [_.cloneDeep], and the own enumerable properties that
    [_.extend] copies from a source that is not a plain object. *)
Class Lodash := {
  cloneDeep : value -> value;
  props_of_other : value -> gmap string value
}.

Section Configuration.
Context `{Externals} {L : Lodash}.

Definition own_props (src : value) : gmap string value :=
  match src with
  | VObj _ props => props
  | _ => props_of_other src
  end.

(** [Machine.prototype.setInputs]:
    [_.extend(this._configuredInputs, _.cloneDeep(configuredInputs))] *)
Definition setInputs (this : Machine) (configuredInputs : value) : Machine :=
  set_configuredInputs
    (own_props (cloneDeep configuredInputs) ∪ _configuredInputs this) this.

(** [Machine.prototype.configure] *)
Definition configure (configuredInputs configuredExits : value) (this : Machine)
    : Machine :=
  let this := if truthy configuredExits then setExits this configuredExits else this in
  if truthy configuredInputs then setInputs this configuredInputs else this.
End Configuration.

(** ** lib/Machine.js: errors and the constructor *)

(** The errors that the constructor builds, by what they are about; the
    text of their messages is left out. *)
Inductive failure :=
| DefinitionInvalid
| NoContext (moduleName : value)
| CannotFind (dependency : string) (moduleName : value).

Definition code (err : failure) : string :=
  match err with
  | DefinitionInvalid => "MACHINE_DEFINITION_INVALID"
  | NoContext _ | CannotFind _ _ => "MODULE_NOT_FOUND"
  end.

(** [Machine.prototype.error], applied to one error, given [this.onError]:
    the configured handler is called, or the default handler throws. *)
Inductive raised :=
| Thrown (err : failure)
| Handled (handler : value) (err : failure).

Definition error (this_onError : value) (err : failure) : raised :=
  if truthy this_onError then Handled this_onError err else Thrown err.

(** The properties of a machine definition that these files read.  The
    dependencies are in the order of the object's keys; [None] stands for a
    falsy [dependencies]. *)
Record definition := mkDefinition {
  def_fn : value;
  def_dependencies : option (list (string * value));
  def_moduleName : value;
  def_onError : value;
  def_onWarn : value;
  def_cacheSettings : value;
  def_configuredContexts : value
}.

(** What the constructor is given: a value that is not an object, or a
    definition object. *)
Inductive given :=
| NotAnObject (v : value)
| Definition_ (d : definition).

(** A module to require dependencies from; [None] when [require] throws. *)
Record context := mkContext {
  ctx_require : string -> option value
}.

(** What the constructor takes from its surroundings: the module that
    [_searchChildModules] finds for a module name, the clone of [Machine]
    that stands for the dependency ['node-machine'], and the address of the
    new [_dependencies] object. *)
Record environment := mkEnvironment {
  searched : value -> option context;
  machine_clone : value;
  fresh_dependencies : addr
}.

(** A machine instance: the fields of [Machine] and what else the
    constructor and [error] use. *)
Record instance := mkInstance {
  core : Machine;
  onError : value;
  dependencies : list (string * value);
  moduleName : value
}.

(** The loop over [this.dependencies]: each module is stored under its
    name; the first one that cannot be resolved goes to [this.error] and
    ends the loop ([return false]). *)
Fixpoint require_dependencies (ctx : option context) (clone : value)
    (this_onError moduleName : value) (deps : list (string * value))
    (loaded : gmap string value) : gmap string value * option raised :=
  match deps with
  | [] => (loaded, None)
  | (name, versionStr) :: deps =>
      match ctx with
      | None => (loaded, Some (error this_onError (NoContext moduleName)))
      | Some c =>
          if String.eqb name "node-machine" then
            require_dependencies ctx clone this_onError moduleName deps
              (<[name := clone]> loaded)
          else
            match ctx_require c name with
            | Some machineCode =>
                require_dependencies ctx clone this_onError moduleName deps
                  (<[name := machineCode]> loaded)
            | None =>
                (loaded, Some (error this_onError (CannotFind name moduleName)))
            end
      end
  end.

(** How [new Machine(...)] ends.  For a falsy definition it ends in the call
    [Machine.noop()]; that static is set outside lib/Machine.js, and what the
    call gives is left open here. *)
Inductive construction :=
| CallsNoop
| Rejects (r : raised)
| Throws (err : failure)
| Constructs (this : instance) (reported : option (value * failure)).

(** The constructor [Machine(machineDefinition, dependenciesModuleContext)].
    An invalid definition goes to [this.error] before anything is copied to
    [this], whose [onError] is then the prototype's, which this file leaves
    undefined. *)
Definition Machine_constructor (env : environment) (machineDefinition : given)
    (dependenciesModuleContext : option context) : construction :=
  match machineDefinition with
  | NotAnObject v =>
      if negb (truthy v) then CallsNoop
      else Rejects (error VUndefined DefinitionInvalid)
  | Definition_ d =>
      if negb (truthy (def_fn d)) then Rejects (error VUndefined DefinitionInvalid)
      else
        let deps := default [] (def_dependencies d) in
        let ctx :=
          match dependenciesModuleContext with
          | Some c => Some c
          | None => searched env (def_moduleName d)
          end in
        let '(loaded, r) :=
          require_dependencies ctx (machine_clone env) (def_onError d)
            (def_moduleName d) deps ∅ in
        let this :=
          {| core :=
               {| fn := def_fn d;
                  _configuredInputs := ∅;
                  _configuredExits := ∅;
                  _dependencies := VObj (fresh_dependencies env) loaded;
                  _configuredContexts := def_configuredContexts d;
                  _cacheSettings := def_cacheSettings d;
                  onWarn := def_onWarn d |};
             onError := def_onError d;
             dependencies := deps;
             moduleName := def_moduleName d |} in
        match r with
        | None => Constructs this None
        | Some (Thrown err) => Throws err
        | Some (Handled handler err) => Constructs this (Some (handler, err))
        end
  end.

(** A dependency that the loop can resolve from a context. *)
Definition resolvable (c : context) (dep : string * value) : Prop :=
  dep.1 = "node-machine" \/ is_Some (ctx_require c dep.1).

(** The module stored for a dependency that can be resolved. *)
Definition resolved (c : context) (clone : value) (name : string) : value :=
  if String.eqb name "node-machine" then clone
  else default VUndefined (ctx_require c name).

(** The context that the loop uses: the one given, or else the one that
    [_searchChildModules] finds. *)
Definition chosen_context (env : environment) (d : definition)
    (dependenciesModuleContext : option context) : option context :=
  match dependenciesModuleContext with
  | Some c => Some c
  | None => searched env (def_moduleName d)
  end.

(** ** Runs in which nothing reports an error *)

Inductive calls_back_ok : cmd -> turn -> Prop :=
| ok_hash self cb err h :
    truthy err = false -> calls_back_ok (CalculateHash self cb) (cb err h)
| ok_find callee c cb err cached :
    truthy err = false -> calls_back_ok (ModelFind callee c cb) (cb err cached)
| ok_count callee c cb err n :
    truthy err = false -> calls_back_ok (ModelCount callee c cb) (cb err n)
| ok_destroy callee c cb err :
    truthy err = false -> calls_back_ok (ModelDestroy callee c cb) (cb err)
| ok_create callee r cb err :
    truthy err = false -> calls_back_ok (ModelCreate callee r cb) (cb err).

Definition issues_without_errors : turn -> cmd -> Prop :=
  issued (fun c t => calls_back_ok c t \/ unit_uses c t).

Definition is_warning (c : cmd) : Prop :=
  match c with
  | CallOnWarn _ _ | ConsoleError _ => True
  | _ => False
  end.

(** ** The store operations of a run *)

Section StoreOperations.
Context `{Externals}.

(** The four forms of a store operation in the pipeline: the lookup for a
    hash, the collector's [count] and [destroy] for the [hash] variable, and
    the write of the intercepted exit, which is there only for a truthy
    [_cache] and a truthy hash. *)
Definition pipeline_store_op (self : Machine) (_cache : value) (c : cmd) : Prop :=
  (exists h,
      c = ModelFind (get "find" (get "model" _cache))
            (buildFindCriteria
               {| opt_hash := h; opt_expirationDate := get "expirationDate" _cache |})
            (on_find self _cache h)) \/
  (exists hash,
      truthy _cache = true /\
      c = ModelCount (get "count" (get "model" _cache))
            (gc_count_criteria _cache hash) (on_count self _cache hash)) \/
  (exists hash,
      truthy _cache = true /\
      c = ModelDestroy (get "destroy" (get "model" _cache))
            (gc_destroy_criteria _cache hash) (on_destroy self)) \/
  (exists hash x f d,
      truthy _cache = true /\ truthy hash = true /\
      get "exit" _cache = VStr x /\ _configuredExits self !! x = Some f /\
      c = ModelCreate (get "create" (get "model" _cache))
            {| new_hash := hash; new_data := d |}
            (fun err => warn_if self err ++ [CallExit f [d]])).
End StoreOperations.

(** ** More sample data *)

Module Demo.
(** lodash's clone of a value without objects inside is the value. *)
Definition lodash : Lodash :=
  {| cloneDeep := fun v => v;
     props_of_other := fun _ => ∅ |}.

(** A context in which only [helper] can be required. *)
Definition helper_context : context :=
  {| ctx_require := fun name =>
       if String.eqb name "helper" then Some (VFun 6) else None |}.

Definition surroundings_of_constructor : environment :=
  {| searched := fun _ => None;
     machine_clone := VFun 9;
     fresh_dependencies := 5 |}.

Definition helper_definition : definition :=
  {| def_fn := VFun 1;
     def_dependencies := Some [("helper", VStr "~1.0.0"); ("node-machine", VStr "*")];
     def_moduleName := VStr "sample-machinepack";
     def_onError := VUndefined;
     def_onWarn := VUndefined;
     def_cacheSettings := VUndefined;
     def_configuredContexts := VUndefined |}.

(** A definition whose second dependency cannot be found. *)
Definition broken_definition : definition :=
  {| def_fn := VFun 1;
     def_dependencies :=
       Some [("helper", VStr "~1.0.0"); ("missing", VStr "*"); ("node-machine", VStr "*")];
     def_moduleName := VStr "sample-machinepack";
     def_onError := VFun 8;
     def_onWarn := VUndefined;
     def_cacheSettings := VUndefined;
     def_configuredContexts := VUndefined |}.

(** Settings that name an exit that the machine does not have. *)
Definition misnamed_settings : value :=
  VObj 23 (list_to_map [("model", Sample.model); ("exit", VStr "done")]).

Definition misnamed_machine : Machine :=
  set_cacheSettings misnamed_settings Sample.machine.

(** A store with [find] and [create] and nothing else: it passes the
    validity test of [exec]. *)
Definition bare_model : value :=
  VObj 15 (list_to_map [("find", VFun 11); ("create", VFun 12)]).

Definition bare_settings : value := VObj 25 {[ "model" := bare_model ]}.

Definition bare_machine : Machine := set_cacheSettings bare_settings Sample.machine.

(** Settings with a [ttl] beyond the range of dates. *)
Definition endless_settings : value :=
  VObj 26 (list_to_map [("model", Sample.model); ("ttl", VNum 10000000000000000)]).

Definition endless_machine : Machine :=
  set_cacheSettings endless_settings Sample.machine.
End Demo.

(** * Properties *)

(** ** Turns without callbacks *)

Lemma leaf_no_callback c t : is_leaf c -> ~ calls_back c t.
Proof. intros Hl Hb. destruct Hb; exact Hl. Qed.

Lemma leaf_no_use c t : is_leaf c -> ~ unit_uses c t.
Proof. intros Hl Hu. destruct Hu; exact Hl. Qed.

Lemma issued_leaves next t c :
  (forall c0 t', next c0 t' -> calls_back c0 t' \/ unit_uses c0 t') ->
  Forall is_leaf t -> issued next t c -> c ∈ t.
Proof.
  intros Hnext Hall Hi. destruct Hi as [t c Hin | t c0 t' c Hin Hn _]; [done|].
  rewrite Forall_forall in Hall. specialize (Hall _ Hin).
  destruct (Hnext _ _ Hn) as [Hb|Hu].
  - by apply leaf_no_callback in Hb.
  - by apply leaf_no_use in Hu.
Qed.

Lemma warn_leaves self args : Forall is_leaf (warn self args).
Proof. unfold warn. destruct (truthy (onWarn self)); repeat constructor. Qed.

Lemma warn_if_leaves self err : Forall is_leaf (warn_if self err).
Proof. unfold warn_if. destruct (truthy err); [apply warn_leaves | constructor]. Qed.

Lemma warn_if_falsy self err : truthy err = false -> warn_if self err = [].
Proof. unfold warn_if. by intros ->. Qed.

Lemma warn_if_truthy self err : truthy err = true -> warn_if self err = warn self [err].
Proof. unfold warn_if. by intros ->. Qed.

Lemma warn_not_fatal self args c : c ∈ warn self args -> ~ is_fatal c.
Proof.
  unfold warn. destruct (truthy (onWarn self)); intros Hin; elems; simpl; tauto.
Qed.

Lemma warn_if_not_fatal self err c : c ∈ warn_if self err -> ~ is_fatal c.
Proof.
  unfold warn_if. destruct (truthy err); [apply warn_not_fatal|].
  intros Hin. elems.
Qed.

Lemma warn_not_store self args c : c ∈ warn self args -> ~ is_store_op c /\ ~ is_RunFn c.
Proof.
  unfold warn. destruct (truthy (onWarn self)); intros Hin; elems; simpl; tauto.
Qed.

Lemma warn_if_not_store self err c :
  c ∈ warn_if self err -> ~ is_store_op c /\ ~ is_RunFn c.
Proof.
  unfold warn_if. destruct (truthy err); [apply warn_not_store|].
  intros Hin. elems.
Qed.

(** ** Exit tables *)

(** A switchback has the functions of its table, and the library's members
    under the other names. *)
Lemma switchback_of_lookup hs name :
  switchback_of hs !! name =
    match hs !! name with
    | Some h => Some (Case h)
    | None => library_members !! name
    end.
Proof.
  unfold switchback_of. rewrite lookup_union, lookup_fmap.
  destruct (hs !! name); simpl; by destruct (library_members !! name).
Qed.

Lemma switchback_lookup exits name :
  switchback exits !! name =
    match exits !! name with
    | Some f => Some (Case (Configured f))
    | None => library_members !! name
    end.
Proof.
  unfold switchback. rewrite switchback_of_lookup, lookup_fmap.
  by destruct (exits !! name).
Qed.

Lemma library_members_spec name m :
  library_members !! name = Some m ->
  m = DefaultCase name \/ m = Telltale \/ m = Inspect.
Proof.
  unfold library_members. intros Hl. apply elem_of_list_to_map_2 in Hl.
  repeat (apply elem_of_cons in Hl as [[= -> ->]|Hl]; [auto|]).
  by apply elem_of_nil in Hl.
Qed.

(** Calling a member of the library issues nothing that takes a callback. *)
Lemma library_member_leaves name m args :
  library_members !! name = Some m -> Forall is_leaf (invoke_member m args).
Proof.
  intros [-> | [-> | ->]]%library_members_spec; simpl; repeat constructor.
Qed.

(** Calling an exit by its name on the switchback of a table is calling the
    function of the table. *)
Lemma invoke_named_case hs name h args :
  hs !! name = Some h ->
  invoke_named (switchback_of hs) name args = invoke_handler h args.
Proof. intros Hl. unfold invoke_named. by rewrite switchback_of_lookup, Hl. Qed.

Lemma invoke_named_free hs name args :
  hs !! name = None ->
  Forall is_leaf (invoke_named (switchback_of hs) name args).
Proof.
  intros Hl. unfold invoke_named. rewrite switchback_of_lookup, Hl.
  destruct (library_members !! name) eqn:Hm; [|repeat constructor].
  by eapply library_member_leaves.
Qed.

Lemma switchback_of_member hs name m :
  switchback_of hs !! name = Some m ->
  (exists h, hs !! name = Some h /\ m = Case h) \/
  (hs !! name = None /\ library_members !! name = Some m).
Proof.
  rewrite switchback_of_lookup. destruct (hs !! name) as [h|]; [|by right].
  intros [= <-]. left. by exists h.
Qed.

Lemma invoke_named_leaves_configured (exits : gmap string value) name args :
  Forall is_leaf (invoke_named (switchback exits) name args).
Proof.
  unfold switchback. destruct ((Configured <$> exits) !! name) as [h|] eqn:Hl.
  - rewrite (invoke_named_case _ _ _ _ Hl). rewrite lookup_fmap in Hl.
    destruct (exits !! name); simplify_eq/=. repeat constructor.
  - by apply invoke_named_free.
Qed.

(** What the unit can set off through a table of exits as configured. *)
Lemma unit_uses_configured f this inputs (exits : gmap string value) env t :
  unit_uses (RunFn f this inputs (switchback exits) env) t -> Forall is_leaf t.
Proof.
  inversion 1 as [? ? ? ? ? name m args Hl | ? ? ? ? ? args]; subst.
  - apply switchback_of_member in Hl as [(h & Hl & ->) | [_ Hl]].
    + rewrite lookup_fmap in Hl.
      destruct (exits !! name); simplify_eq/=. repeat constructor.
    + by eapply library_member_leaves.
  - unfold switchback_apply.
    destruct (truthy _); apply invoke_named_leaves_configured.
Qed.

Section PipelineFacts.
Context `{Externals}.

Lemma interceptedExits_lookup self _cache hash name :
  interceptedExits self _cache hash !! name =
  (fun f => if negb (truthy _cache) || negb (truthy hash)
               || strict_neq_name name (get "exit" _cache)
            then Configured f
            else CacheThenForward self _cache hash f)
    <$> _configuredExits self !! name.
Proof.
  unfold interceptedExits. rewrite map_lookup_imap.
  by destruct (_configuredExits self !! name).
Qed.

(** Without a cache, or without a hash, no exit is intercepted. *)
Lemma interceptedExits_off self _cache hash :
  truthy _cache && truthy hash = false ->
  switchback_of (interceptedExits self _cache hash) = switchback (_configuredExits self).
Proof.
  intros Hoff. unfold switchback. f_equal. apply map_eq. intros name.
  rewrite interceptedExits_lookup, lookup_fmap.
  destruct (_configuredExits self !! name); [simpl|done].
  by destruct (truthy _cache), (truthy hash).
Qed.

(** The validity test, spelled out. *)
Lemma cache_is_valid_spec (c : value) :
  cache_is_valid c = true <->
  exists a props b mprops f g,
    c = VObj a props /\ props !! "model" = Some (VObj b mprops) /\
    mprops !! "find" = Some (VFun f) /\ mprops !! "create" = Some (VFun g).
Proof.
  unfold cache_is_valid. split.
  - intros Hv. repeat (apply andb_prop in Hv as [Hv ?]).
    destruct c as [| | | | | | |a props]; try done. simpl in *.
    destruct (props !! "model") as [[| | | | | | |b mprops]|] eqn:Hm; try done.
    simpl in *.
    destruct (mprops !! "find") as [[| | | | | |f|]|] eqn:Hf; try done.
    destruct (mprops !! "create") as [[| | | | | |g|]|] eqn:Hg; try done.
    by exists a, props, b, mprops, f, g.
  - intros (a & props & b & mprops & f & g & -> & Hm & Hf & Hg).
    simpl. rewrite Hm. simpl. by rewrite Hf, Hg.
Qed.

Lemma normalize_truthy now c : cache_is_valid c = true -> truthy (normalize now c) = true.
Proof.
  intros (a & props & ? & ? & ? & ? & -> & _)%cache_is_valid_spec. done.
Qed.
End PipelineFacts.

(** ** Runs with caching disabled *)

Section Disabled.
Context `{Externals}.

Lemma consume_fn this : fn (consume_cache_input this) = fn this.
Proof. unfold consume_cache_input. by destruct (truthy _). Qed.

Lemma prepared_fn cfg this : fn (prepared cfg this) = fn this.
Proof. unfold prepared. rewrite consume_fn. by destruct (truthy cfg). Qed.

Lemma consume_idempotent this :
  consume_cache_input (consume_cache_input this) = consume_cache_input this.
Proof.
  destruct (truthy (default VUndefined (_configuredInputs this !! "_cache"))) eqn:Hc;
    unfold consume_cache_input; rewrite Hc; simpl.
  - by rewrite lookup_delete_eq.
  - by rewrite Hc.
Qed.

Lemma consume_setExits this cfg :
  consume_cache_input (setExits this cfg) = setExits (consume_cache_input this) cfg.
Proof. unfold consume_cache_input. simpl. by destruct (truthy _). Qed.

Lemma prepared_prepared cfg' cfg this :
  _cacheSettings (prepared cfg' (prepared cfg this)) = _cacheSettings (prepared cfg this).
Proof.
  unfold prepared.
  destruct (truthy cfg'), (truthy cfg);
    rewrite ?consume_setExits, ?consume_idempotent; done.
Qed.

Lemma cache_enabled_any_exits cfg this :
  cache_enabled cfg this = cache_is_valid (_cacheSettings (consume_cache_input this)).
Proof.
  unfold cache_enabled, prepared. destruct (truthy cfg); [|done].
  by rewrite consume_setExits.
Qed.

Lemma exec_disabled cfg now this :
  cache_enabled cfg this = false ->
  Machine_prototype_exec cfg now this =
    (prepared cfg this,
     [RunFn (fn this) (ThisValue (_configuredContexts (prepared cfg this)))
            (_configuredInputs (prepared cfg this))
            (switchback (_configuredExits (prepared cfg this)))
            (_configuredContexts (prepared cfg this))]).
Proof.
  unfold cache_enabled, Machine_prototype_exec, local_cache. fold (prepared cfg this).
  intros ->. unfold _tryCacheLookup, _cacheNotAnOption_justRunMachine. simpl.
  by rewrite interceptedExits_off, prepared_fn.
Qed.

Lemma disabled_stays_disabled cfg cfg' now this :
  cache_enabled cfg this = false ->
  cache_enabled cfg' (Machine_prototype_exec cfg now this).1 = false.
Proof.
  intros Hd. rewrite (exec_disabled _ _ _ Hd). simpl.
  rewrite cache_enabled_any_exits in *.
  rewrite <- Hd. f_equal.
  unfold prepared. destruct (truthy cfg);
    rewrite ?consume_setExits, ?consume_idempotent; done.
Qed.

Lemma plain_run_no_store_op f this inputs (exits : gmap string value) env c :
  may_issue [RunFn f this inputs (switchback exits) env] c -> ~ is_store_op c.
Proof.
  intros Hi. inversion Hi as [? ? Hin | ? c0 t' ? Hin Hn Hi']; subst; elems.
  - simpl. tauto.
  - destruct Hn as [Hb|Hu]; [inversion Hb|].
    apply unit_uses_configured in Hu.
    apply issued_leaves in Hi'; [|tauto|done].
    rewrite Forall_forall in Hu. specialize (Hu _ Hi').
    destruct c; simpl in *; tauto.
Qed.

(** C8. When the cache settings of a machine, with the reserved input
    merged in, are not an object that holds a model object with [find]
    and [create] functions, every invocation of a series of invocations
    runs [fn] in its first turn, and no [find], [create], [count] or
    [destroy] is ever issued, whatever the unit does with its exits. *)
Theorem disabled_cache_always_runs_fn (runs : list (value * Z)) (this : Machine) :
  cache_is_valid (_cacheSettings (consume_cache_input this)) = false ->
  Forall (fun t =>
            (exists r inputs exits env, t = [RunFn (fn this) r inputs exits env]) /\
            (forall c, may_issue t c -> ~ is_store_op c))
         (exec_repeatedly runs this).
Proof.
  revert this. induction runs as [|[cfg now] runs IH]; intros this Hd; [constructor|].
  assert (cache_enabled cfg this = false) as Hoff
    by by rewrite cache_enabled_any_exits.
  pose proof (disabled_stays_disabled cfg VUndefined now this Hoff) as Hnext.
  rewrite cache_enabled_any_exits in Hnext. specialize (IH _ Hnext).
  cbn [exec_repeatedly]. rewrite (exec_disabled _ now _ Hoff) in IH |- *.
  cbn [fst snd] in *. rewrite prepared_fn in IH.
  constructor; [|done]. split; [by eauto|].
  intros c. apply plain_run_no_store_op.
Qed.
End Disabled.

(** A series of three invocations of a machine without cache settings. *)
Lemma disabled_cache_always_runs_fn_witness :
  cache_is_valid
    (_cacheSettings (consume_cache_input (H := Sample.externals) Sample.plain_machine)) = false /\
  Forall (fun t =>
            (exists r inputs exits env,
                t = [RunFn (fn Sample.plain_machine) r inputs exits env]) /\
            (forall c, may_issue t c -> ~ is_store_op c))
         (exec_repeatedly (H := Sample.externals)
            [(VUndefined, 100); (VUndefined, 200); (VUndefined, 300)]
            Sample.plain_machine).
Proof.
  split; [reflexivity|].
  apply (disabled_cache_always_runs_fn (H := Sample.externals)). reflexivity.
Defined.

(** ** Runs with caching enabled *)

Section Enabled.
Context `{Externals}.

Lemma exec_enabled cfg now this :
  cache_enabled cfg this = true ->
  Machine_prototype_exec cfg now this =
    (run_self cfg now this,
     [CalculateHash (run_self cfg now this)
        (on_hash (run_self cfg now this) (run_cache cfg now this))]).
Proof.
  unfold run_self, run_cache, cache_enabled, Machine_prototype_exec, local_cache.
  fold (prepared cfg this). intros Hv. rewrite Hv. cbn [fst].
  unfold _tryCacheLookup. by rewrite normalize_truthy.
Qed.

Lemma run_cache_truthy cfg now this :
  cache_enabled cfg this = true -> truthy (run_cache cfg now this) = true.
Proof.
  unfold run_cache, cache_enabled, local_cache. intros Hv. rewrite Hv.
  by apply normalize_truthy.
Qed.

Lemma run_self_exits cfg now this :
  _configuredExits (run_self cfg now this) = _configuredExits (prepared cfg this).
Proof.
  unfold run_self, Machine_prototype_exec. fold (prepared cfg this). cbn [fst].
  by destruct (cache_is_valid _).
Qed.

Lemma run_self_inputs cfg now this :
  _configuredInputs (run_self cfg now this) = _configuredInputs (prepared cfg this).
Proof.
  unfold run_self, Machine_prototype_exec. fold (prepared cfg this). cbn [fst].
  by destruct (cache_is_valid _).
Qed.

(** A hit: the first entry of the reply has data. *)
Lemma on_find_hit self _cache hash err e rest :
  truthy err = false -> is_defined (entry_data e) = true ->
  on_find self _cache hash err (e :: rest) =
    invoke_named (switchback (_configuredExits self)) "success" [entry_data e].
Proof. unfold on_find. by intros -> ->. Qed.

Lemma hit_never_runs_fn (exits : gmap string value) args c :
  may_issue (invoke_named (switchback exits) "success" args) c ->
  ~ is_RunFn c /\ ~ is_store_op c.
Proof.
  intros Hi. apply issued_leaves in Hi;
    [|tauto|apply invoke_named_leaves_configured].
  pose proof (invoke_named_leaves_configured exits "success" args) as Hl.
  rewrite Forall_forall in Hl. specialize (Hl _ Hi).
  destruct c; simpl in *; tauto.
Qed.

(** C1. In a run with caching enabled whose hash was derived, when the
    reply to [find] respects the limit of the query and holds an entry
    with defined data, the run goes from the hash to the query to the
    success exit, which receives that entry's data, the very value of the
    entry; [fn] is not run then or later. *)
Theorem cache_hit_forwards_stored_data cfg now this errh h errf cached e :
  cache_enabled cfg this = true ->
  truthy errh = false ->
  truthy errf = false ->
  within_limit
    (buildFindCriteria
       {| opt_hash := h;
          opt_expirationDate := get "expirationDate" (run_cache cfg now this) |})
    cached ->
  e ∈ cached ->
  is_defined (entry_data e) = true ->
  let self := run_self cfg now this in
  let _cache := run_cache cfg now this in
  let hit := on_find self _cache h errf cached in
  (Machine_prototype_exec cfg now this).2 = [CalculateHash self (on_hash self _cache)] /\
  on_hash self _cache errh h =
    [ModelFind (get "find" (get "model" _cache))
       (buildFindCriteria
          {| opt_hash := h; opt_expirationDate := get "expirationDate" _cache |})
       (on_find self _cache h)] /\
  hit = match _configuredExits self !! "success" with
        | Some success => [CallExit success [entry_data e]]
        | None => [SwitchbackUnhandled "success" [entry_data e]]
        end /\
  (forall c, may_issue hit c -> ~ is_RunFn c).
Proof.
  intros Hen Hh Hf Hlim Hin Hdef self _cache hit.
  assert (cached = [e]) as ->.
  { unfold within_limit in Hlim. simpl in Hlim.
    destruct cached as [|e0 [|e1 rest]]; simpl in Hlim; [elems| |lia].
    elems. done. }
  split; [by rewrite (exec_enabled _ _ _ Hen)|].
  split; [unfold on_hash; by rewrite Hh|].
  subst hit. rewrite (on_find_hit _ _ _ _ _ _ Hf Hdef).
  split.
  - unfold invoke_named. rewrite switchback_lookup.
    by destruct (_configuredExits self !! "success").
  - intros c Hc. by apply hit_never_runs_fn in Hc as [? _].
Qed.
End Enabled.

(** A fresh entry for the sample machine's hash. *)
Lemma cache_hit_forwards_stored_data_witness :
  (Machine_prototype_exec (H := Sample.externals) VUndefined 1000 Sample.machine).2 =
    [CalculateHash (run_self (H := Sample.externals) VUndefined 1000 Sample.machine)
       (on_hash (H := Sample.externals)
          (run_self (H := Sample.externals) VUndefined 1000 Sample.machine)
          (run_cache (H := Sample.externals) VUndefined 1000 Sample.machine))] /\
  on_find (H := Sample.externals)
    (run_self (H := Sample.externals) VUndefined 1000 Sample.machine)
    (run_cache (H := Sample.externals) VUndefined 1000 Sample.machine)
    (VStr "h1") VNull [Sample.fresh_entry] = [CallExit (VFun 2) [Sample.result]].
Proof.
  destruct (cache_hit_forwards_stored_data (H := Sample.externals)
              VUndefined 1000 Sample.machine VNull (VStr "h1") VNull
              [Sample.fresh_entry] Sample.fresh_entry)
    as (H1 & _ & H3 & _).
  - reflexivity.
  - reflexivity.
  - reflexivity.
  - unfold within_limit. simpl. lia.
  - apply list_elem_of_here.
  - reflexivity.
  - split; [exact H1|exact H3].
Defined.

(** ** Falling back when the lookup fails *)

Section Fallback.
Context `{Externals}.

Lemma default_prop_lookup_ne k k' v (props : gmap string value) :
  k <> k' -> default_prop k v props !! k' = props !! k'.
Proof.
  intros Hne. unfold default_prop. destruct (is_defined _); [done|].
  by rewrite lookup_insert_ne.
Qed.

Lemma get_model_normalize now c : get "model" (normalize now c) = get "model" c.
Proof.
  destruct c as [| | | | | | |a props]; try done. simpl.
  rewrite lookup_insert_ne by done. unfold apply_defaults.
  by rewrite !default_prop_lookup_ne.
Qed.

Lemma valid_normalize now c :
  cache_is_valid c = true -> cache_is_valid (normalize now c) = true.
Proof.
  intros Hv. unfold cache_is_valid in *. rewrite get_model_normalize.
  destruct c; done.
Qed.

Lemma prepared_cache_input cfg this :
  truthy (default VUndefined (_configuredInputs (prepared cfg this) !! "_cache")) = false.
Proof.
  unfold prepared. generalize (if truthy cfg then setExits this cfg else this).
  intros m. unfold consume_cache_input.
  destruct (truthy (default VUndefined (_configuredInputs m !! "_cache"))) eqn:Hc;
    [|done].
  simpl. by rewrite lookup_delete_eq.
Qed.

Lemma run_self_fn cfg now this : fn (run_self cfg now this) = fn this.
Proof.
  unfold run_self, Machine_prototype_exec. fold (prepared cfg this). cbn [fst].
  destruct (cache_is_valid _); simpl; apply prepared_fn.
Qed.

Lemma run_self_settings cfg now this :
  cache_enabled cfg this = true ->
  _cacheSettings (run_self cfg now this) = run_cache cfg now this.
Proof.
  unfold run_self, run_cache, cache_enabled, Machine_prototype_exec, local_cache.
  fold (prepared cfg this). by intros ->.
Qed.

(** The settings of the next invocation are the normalized settings of
    this one. *)
Lemma next_settings cfg' cfg now this :
  cache_enabled cfg this = true ->
  _cacheSettings (prepared cfg' (run_self cfg now this)) = run_cache cfg now this.
Proof.
  intros Hen. rewrite <- (run_self_settings _ _ _ Hen).
  pose proof (prepared_cache_input cfg this) as Hc.
  rewrite <- (run_self_inputs cfg now this) in Hc.
  unfold prepared. destruct (truthy cfg').
  - rewrite consume_setExits. unfold consume_cache_input. by rewrite Hc.
  - unfold consume_cache_input. by rewrite Hc.
Qed.

Lemma enabled_stays_enabled cfg' cfg now this :
  cache_enabled cfg this = true ->
  cache_enabled cfg' (run_self cfg now this) = true.
Proof.
  intros Hen. unfold cache_enabled at 1. rewrite (next_settings _ _ _ _ Hen).
  unfold run_cache, local_cache. unfold cache_enabled in Hen. rewrite Hen.
  by apply valid_normalize.
Qed.

Lemma complete_stays_complete cfg' now' cfg now this :
  cache_enabled cfg this = true ->
  store_complete (run_cache cfg' now' (run_self cfg now this)) =
  store_complete (_cacheSettings (prepared cfg this)).
Proof.
  intros Hen. pose proof (enabled_stays_enabled cfg' _ now _ Hen) as Hen'.
  unfold store_complete, run_cache at 1 2, local_cache.
  unfold cache_enabled in Hen'. rewrite Hen', get_model_normalize.
  rewrite (next_settings _ _ _ _ Hen).
  unfold run_cache, local_cache. unfold cache_enabled in Hen.
  by rewrite Hen, get_model_normalize.
Qed.

Lemma run_cache_complete cfg now this :
  cache_enabled cfg this = true ->
  store_complete (run_cache cfg now this) =
  store_complete (_cacheSettings (prepared cfg this)).
Proof.
  intros Hen. unfold store_complete, run_cache, local_cache.
  unfold cache_enabled in Hen. by rewrite Hen, get_model_normalize.
Qed.

(** The garbage collector, once its [count] has called back, only warns
    and possibly issues one [destroy]. *)
Lemma gc_issues next self _cache hash err n c :
  (forall c0 t', next c0 t' -> calls_back c0 t' \/ unit_uses c0 t') ->
  isFunction (get "destroy" (get "model" _cache)) = true ->
  issued next (on_count self _cache hash err n) c ->
  ~ is_fatal c /\ ~ is_RunFn c /\
  (is_store_op c ->
   exists cb, c = ModelDestroy (get "destroy" (get "model" _cache))
                    (gc_destroy_criteria _cache hash) cb).
Proof.
  intros Hnext Hd Hi. unfold on_count in Hi. rewrite Hd in Hi.
  assert (forall c, c ∈ warn_if self err -> ~ is_fatal c /\ ~ is_RunFn c /\
            (is_store_op c -> exists cb, c = ModelDestroy (get "destroy" (get "model" _cache))
                    (gc_destroy_criteria _cache hash) cb)) as Hw.
  { intros c' Hc'. pose proof (warn_if_not_fatal _ _ _ Hc').
    pose proof (warn_if_not_store _ _ _ Hc'). tauto. }
  inversion Hi as [? ? Hin | ? c0 t' ? Hin Hn Hi']; subst.
  - destruct (js_gt n _); elems; eauto; simpl; (repeat split; [tauto..|eauto]).
  - destruct (Hnext _ _ Hn) as [Hb|Hu].
    + destruct (js_gt n _); elems;
        try (pose proof (warn_if_leaves self err) as Hl;
             rewrite Forall_forall in Hl; specialize (Hl _ Hin);
             by apply leaf_no_callback in Hb).
      inversion Hb; subst. unfold on_destroy in Hi'.
      apply issued_leaves in Hi'; [|done|apply warn_if_leaves].
      pose proof (warn_if_not_fatal _ _ _ Hi').
      pose proof (warn_if_not_store _ _ _ Hi'). tauto.
    + destruct (js_gt n _); elems;
        try (pose proof (warn_if_leaves self err) as Hl;
             rewrite Forall_forall in Hl; specialize (Hl _ Hin);
             by apply leaf_no_use in Hu).
      inversion Hu.
Qed.
End Fallback.

(** ** Where [fn] is run *)

Section RunFn.
Context `{Externals}.

Lemma handler_never_runs_fn h args c :
  may_issue (invoke_handler h args) c -> ~ is_RunFn c /\ ~ is_gc_op c.
Proof.
  intros Hi. destruct h as [f|self _cache hash f]; simpl in Hi.
  - apply issued_leaves in Hi; [|tauto|repeat constructor]. elems. simpl. tauto.
  - inversion Hi as [? ? Hin | ? c0 t' ? Hin Hn Hi']; subst; elems; [simpl; tauto|].
    destruct Hn as [Hb|Hu]; [|inversion Hu]. inversion Hb; subst.
    assert (Forall is_leaf (warn_if self err ++ [CallExit f [hd VUndefined args]])) as Hl.
    { apply Forall_app. split; [apply warn_if_leaves|repeat constructor]. }
    apply issued_leaves in Hi'; [|tauto|done].
    rewrite Forall_forall in Hl. specialize (Hl _ Hi').
    destruct c; simpl in *; tauto.
Qed.

Lemma member_never_runs_fn m args c :
  may_issue (invoke_member m args) c -> ~ is_RunFn c /\ ~ is_gc_op c.
Proof.
  destruct m as [h|name| |]; [apply handler_never_runs_fn|..];
    (intros Hi; apply issued_leaves in Hi; [|tauto|repeat constructor];
     simpl in Hi; elems; simpl; tauto).
Qed.

Lemma named_never_runs_fn hs name args c :
  may_issue (invoke_named hs name args) c -> ~ is_RunFn c /\ ~ is_gc_op c.
Proof.
  unfold invoke_named. destruct (hs !! name); [apply member_never_runs_fn|].
  intros Hi. apply issued_leaves in Hi; [|tauto|repeat constructor].
  elems. simpl. tauto.
Qed.

Lemma switchback_never_runs_fn hs args c :
  may_issue (switchback_apply hs args) c -> ~ is_RunFn c /\ ~ is_gc_op c.
Proof.
  unfold switchback_apply. destruct (truthy _); apply named_never_runs_fn.
Qed.

(** Nothing the unit does with its exits runs [fn] again or starts the
    garbage collector. *)
Lemma unit_never_runs_fn c0 t c :
  unit_uses c0 t -> may_issue t c -> ~ is_RunFn c /\ ~ is_gc_op c.
Proof.
  intros Hu. destruct Hu.
  - apply member_never_runs_fn.
  - apply switchback_never_runs_fn.
Qed.

Lemma gc_never_runs_fn self _cache hash err n c :
  may_issue (on_count self _cache hash err n) c -> ~ is_RunFn c.
Proof.
  intros Hi. unfold on_count in Hi.
  assert (forall t, Forall is_leaf t -> may_issue (warn_if self err ++ t) c ->
          ~ is_RunFn c) as Hleaf.
  { intros t Ht Hi'. apply issued_leaves in Hi'; [|tauto|].
    - assert (Forall is_leaf (warn_if self err ++ t)) as Hl
        by (apply Forall_app; split; [apply warn_if_leaves|done]).
      rewrite Forall_forall in Hl. specialize (Hl _ Hi').
      destruct c; simpl in *; tauto.
    - apply Forall_app; split; [apply warn_if_leaves|done]. }
  destruct (js_gt n _); [|by apply (Hleaf [])].
  destruct (isFunction _); [|apply (Hleaf [Throw "TypeError"]); [repeat constructor|done]].
  inversion Hi as [? ? Hin | ? c0 t' ? Hin Hn Hi']; subst; elems.
  - by apply warn_if_not_store in Hin as [_ ?].
  - simpl. tauto.
  - pose proof (warn_if_leaves self err) as Hl.
    rewrite Forall_forall in Hl. specialize (Hl _ Hin).
    destruct Hn as [Hb|Hu];
      [by apply leaf_no_callback in Hb|by apply leaf_no_use in Hu].
  - destruct Hn as [Hb|Hu]; [|inversion Hu]. inversion Hb; subst.
    unfold on_destroy in Hi'.
    apply issued_leaves in Hi'; [|tauto|apply warn_if_leaves].
    by apply warn_if_not_store in Hi' as [_ ?].
Qed.

Lemma justRun_runs_fn_once self _cache hash err c :
  may_issue (_cacheNotAnOption_justRunMachine self _cache hash err) c ->
  is_RunFn c -> c = the_run self _cache hash.
Proof.
  intros Hi Hr. unfold _cacheNotAnOption_justRunMachine in Hi.
  assert (forall c0, c0 ∈ warn_if self err -> forall t', ~ (calls_back c0 t' \/ unit_uses c0 t'))
    as Hwarn.
  { intros c0 Hin t'. pose proof (warn_if_leaves self err) as Hl.
    rewrite Forall_forall in Hl. specialize (Hl _ Hin).
    intros [Hb|Hu]; [by apply leaf_no_callback in Hb|by apply leaf_no_use in Hu]. }
  destruct (truthy _cache); [destruct (isFunction _)|];
    inversion Hi as [? ? Hin | ? c0 t' ? Hin Hn Hi']; subst; elems;
    try (by apply warn_if_not_store in Hin as [_ ?]);
    try done;
    try (by apply Hwarn in Hn);
    try (destruct Hn as [Hb|Hu]; [inversion Hb|inversion Hu]; fail).
  - destruct Hn as [Hb|Hu]; [|inversion Hu]. inversion Hb; subst.
    by apply gc_never_runs_fn in Hi'.
  - destruct Hn as [Hb|Hu]; [inversion Hb|].
    by eapply unit_never_runs_fn in Hi' as [? _].
  - destruct Hn as [Hb|Hu]; [inversion Hb|].
    by eapply unit_never_runs_fn in Hi' as [? _].
Qed.

Lemma on_find_runs_fn_once self _cache hash err cached c :
  may_issue (on_find self _cache hash err cached) c ->
  is_RunFn c -> c = the_run self _cache hash.
Proof.
  unfold on_find. destruct (truthy err); [apply justRun_runs_fn_once|].
  destruct cached as [|e rest]; [apply justRun_runs_fn_once|].
  destruct (is_defined _); [|apply justRun_runs_fn_once].
  intros Hi Hr. by apply switchback_never_runs_fn in Hi as [? _].
Qed.

Lemma on_hash_runs_fn_once self _cache err h c :
  may_issue (on_hash self _cache err h) c ->
  is_RunFn c -> exists hash, c = the_run self _cache hash.
Proof.
  unfold on_hash. destruct (truthy err).
  - intros Hi Hr. eexists. by eapply justRun_runs_fn_once.
  - intros Hi Hr.
    inversion Hi as [? ? Hin | ? c0 t' ? Hin Hn Hi']; subst; elems; [done|].
    destruct Hn as [Hb|Hu]; [|inversion Hu]. inversion Hb; subst.
    eexists. by eapply on_find_runs_fn_once.
Qed.

(** Every call of [fn] that a run may issue is the one of
    [_cacheNotAnOption_justRunMachine], for some value of [hash]. *)
Lemma exec_runs_fn_once cfg now this c :
  may_issue (Machine_prototype_exec cfg now this).2 c ->
  is_RunFn c ->
  exists hash, c = the_run (run_self cfg now this) (run_cache cfg now this) hash.
Proof.
  unfold run_self, run_cache, Machine_prototype_exec. fold (prepared cfg this).
  cbn [fst snd]. unfold _tryCacheLookup.
  set (self := if cache_is_valid _ then _ else _).
  destruct (truthy (local_cache now (prepared cfg this))); cbn [negb].
  - intros Hi Hr.
    inversion Hi as [? ? Hin | ? c0 t' ? Hin Hn Hi']; subst; elems; [done|].
    destruct Hn as [Hb|Hu]; [|inversion Hu]. inversion Hb; subst.
    by eapply on_hash_runs_fn_once.
  - intros Hi Hr. eexists. by eapply justRun_runs_fn_once.
Qed.
End RunFn.

(** ** The intercepted exit *)

Section Interception.
Context `{Externals}.

Lemma strict_neq_name_same x : strict_neq_name x (VStr x) = false.
Proof. simpl. by rewrite String.eqb_refl. Qed.

Lemma interceptedExits_cacheable self _cache hash x f :
  truthy _cache = true -> truthy hash = true ->
  get "exit" _cache = VStr x ->
  _configuredExits self !! x = Some f ->
  interceptedExits self _cache hash !! x = Some (CacheThenForward self _cache hash f).
Proof.
  intros Hc Hh Hx Hf. rewrite interceptedExits_lookup, Hf, Hc, Hh, Hx.
  by rewrite strict_neq_name_same.
Qed.

Lemma interceptedExits_other self _cache hash x y f :
  get "exit" _cache = VStr x -> y <> x ->
  _configuredExits self !! y = Some f ->
  interceptedExits self _cache hash !! y = Some (Configured f).
Proof.
  intros Hx Hne Hf. rewrite interceptedExits_lookup, Hf, Hx. simpl.
  apply String.eqb_neq in Hne. rewrite Hne. simpl.
  by rewrite orb_true_r.
Qed.

(** C2. With caching enabled and a hash, once the unit traverses the
    cacheable exit with [d], one [create] is issued, for [{hash, data: d}],
    and nothing else; its callback warns if and only if the write failed
    and then calls the configured exit with [d], and issues no further
    store operation. *)
Theorem cacheable_exit_writes_then_forwards self _cache hash x f d :
  truthy _cache = true ->
  truthy hash = true ->
  get "exit" _cache = VStr x ->
  _configuredExits self !! x = Some f ->
  exists h cb,
    interceptedExits self _cache hash !! x = Some h /\
    invoke_handler h [d] =
      [ModelCreate (get "create" (get "model" _cache))
         {| new_hash := hash; new_data := d |} cb] /\
    invoke_named (switchback_of (interceptedExits self _cache hash)) x [d] =
      invoke_handler h [d] /\
    (x = "success" ->
     switchback_apply (switchback_of (interceptedExits self _cache hash)) [VNull; d] =
     invoke_handler h [d]) /\
    (forall err, truthy err = false -> cb err = [CallExit f [d]]) /\
    (forall err, truthy err = true -> cb err = warn self [err] ++ [CallExit f [d]]) /\
    (forall err c, may_issue (cb err) c -> ~ is_store_op c) /\
    (forall err g r inputs exits env,
        RunFn g r inputs exits env ∈ _cacheNotAnOption_justRunMachine self _cache hash err ->
        exits = switchback_of (interceptedExits self _cache hash)).
Proof.
  intros Hc Hh Hx Hf.
  pose proof (interceptedExits_cacheable _ _ _ _ _ Hc Hh Hx Hf) as Hl.
  eexists _, _. split; [exact Hl|]. split; [reflexivity|].
  split; [by apply invoke_named_case|].
  split; [|split; [|split; [|split]]]; cycle 4.
  { intros err g r inputs exits env Hin.
    apply issued_here with (next := fun c t => calls_back c t \/ unit_uses c t) in Hin.
    apply justRun_runs_fn_once in Hin; [|done]. unfold the_run in Hin. by simplify_eq. }
  - intros ->. unfold switchback_apply. cbn [hd tl truthy].
    by apply invoke_named_case.
  - intros err He. by rewrite warn_if_falsy.
  - intros err He. by rewrite warn_if_truthy.
  - intros err c Hi.
    assert (Forall is_leaf (warn_if self err ++ [CallExit f [d]])) as Hleaf.
    { apply Forall_app. split; [apply warn_if_leaves|repeat constructor]. }
    apply issued_leaves in Hi; [|tauto|done].
    rewrite Forall_forall in Hleaf. specialize (Hleaf _ Hi).
    destruct c; simpl in *; tauto.
Qed.

(** C10. A hit applies the switchback over the configured exits to
    [(null, data)], which is a call of the [success] exit, whatever exit
    the settings name as cacheable; so data written when the unit
    traversed a cacheable exit [x] other than [success] comes back, on a
    later hit, through [success] and not through [x]. *)
Theorem hit_replays_through_success self _cache h x fx success d now cutoff err
    self' _cache' :
  truthy _cache = true ->
  h <> "" ->
  get "exit" _cache = VStr x ->
  x <> "success" ->
  _configuredExits self !! x = Some fx ->
  _configuredExits self' !! "success" = Some success ->
  is_defined d = true ->
  truthy err = false ->
  cutoff < now ->
  let r := {| new_hash := VStr h; new_data := d |} in
  let reply :=
    Store.find
      (buildFindCriteria
         {| opt_hash := VStr h; opt_expirationDate := VDate (Some cutoff) |})
      (Store.create now r []) in
  (exists cb,
      invoke_named (switchback_of (interceptedExits self _cache (VStr h))) x [d] =
        [ModelCreate (get "create" (get "model" _cache)) r cb]) /\
  (forall e rest, is_defined (entry_data e) = true ->
      on_find self' _cache' (VStr h) err (e :: rest) =
      switchback_apply (switchback (_configuredExits self')) [VNull; entry_data e]) /\
  on_find self' _cache' (VStr h) err reply = [CallExit success [d]].
Proof.
  intros Hc Hh Hx Hne Hfx Hs Hd He Hlt r reply.
  assert (truthy (VStr h) = true) as Hth.
  { simpl. apply negb_true_iff. by apply String.eqb_neq. }
  split; [|split].
  - rewrite (invoke_named_case _ _ _ _
               (interceptedExits_cacheable _ _ _ _ _ Hc Hth Hx Hfx)).
    simpl. eauto.
  - intros e rest Hde. unfold on_find. by rewrite He, Hde.
  - assert (reply = [{| entry_hash := VStr h; entry_data := d;
                        entry_createdAt := now |}]) as ->.
    { subst reply. unfold Store.find, Store.selected, Store.create.
      unfold Store.limited, Store.skip_count, Store.sorted. simpl.
      rewrite filter_cons_True, filter_nil; [done|].
      unfold Store.matches. simpl. rewrite String.eqb_refl. simpl.
      apply Z.ltb_lt in Hlt. by rewrite Hlt. }
    rewrite on_find_hit by done. unfold invoke_named.
    by rewrite switchback_lookup, Hs.
Qed.
End Interception.

(** Witness of C2: the sample machine's success exit. *)
Lemma cacheable_exit_writes_then_forwards_witness :
  exists h cb,
    interceptedExits (run_self (H := Sample.externals) VUndefined 1000 Sample.machine)
      (run_cache (H := Sample.externals) VUndefined 1000 Sample.machine)
      (VStr "h1") !! "success" = Some h /\
    invoke_handler h [Sample.result] =
      [ModelCreate (VFun 12)
         {| new_hash := VStr "h1"; new_data := Sample.result |} cb] /\
    cb VNull = [CallExit (VFun 2) [Sample.result]].
Proof.
  destruct (cacheable_exit_writes_then_forwards (H := Sample.externals)
              (run_self (H := Sample.externals) VUndefined 1000 Sample.machine)
              (run_cache (H := Sample.externals) VUndefined 1000 Sample.machine)
              (VStr "h1") "success" (VFun 2) Sample.result)
    as (h & cb & Hl & Hi & _ & _ & Hok & _); try reflexivity.
  exists h, cb. split; [exact Hl|]. split; [exact Hi|]. apply Hok. reflexivity.
Defined.

(** Witness of C10: the cacheable exit of the machine is [notFound]. *)
Lemma hit_replays_through_success_witness :
  on_find (H := Sample.externals)
    (run_self (H := Sample.externals) VUndefined 2000 Sample.custom_machine)
    (run_cache (H := Sample.externals) VUndefined 2000 Sample.custom_machine)
    (VStr "h1") VNull
    (Store.find
       (buildFindCriteria
          {| opt_hash := VStr "h1"; opt_expirationDate := VDate (Some 500) |})
       (Store.create 1000
          {| new_hash := VStr "h1"; new_data := Sample.result |} []))
  = [CallExit (VFun 2) [Sample.result]].
Proof.
  apply (hit_replays_through_success (H := Sample.externals)
           (run_self (H := Sample.externals) VUndefined 1000 Sample.custom_machine)
           (run_cache (H := Sample.externals) VUndefined 1000 Sample.custom_machine)
           "h1" "notFound" (VFun 4) (VFun 2) Sample.result 1000 500 VNull);
    try reflexivity; discriminate.
Defined.

(** ** The fallback turn *)

Section FallbackRuns.
Context `{Externals}.

Lemma justRun_fallback self _cache hash err :
  truthy _cache = true ->
  isFunction (get "count" (get "model" _cache)) = true ->
  truthy err = true ->
  _cacheNotAnOption_justRunMachine self _cache hash err =
  fallback_turn self _cache hash err.
Proof.
  intros Hc Hcount He. unfold _cacheNotAnOption_justRunMachine, fallback_turn.
  by rewrite Hc, Hcount, warn_if_truthy.
Qed.

Lemma fallback_not_fatal self _cache hash err c :
  isFunction (get "destroy" (get "model" _cache)) = true ->
  pipeline_issues (fallback_turn self _cache hash err) c -> ~ is_fatal c.
Proof.
  intros Hd Hi. unfold fallback_turn in Hi.
  inversion Hi as [? ? Hin | ? c0 t' ? Hin Hn Hi']; subst; elems.
  - by eapply warn_not_fatal.
  - simpl. tauto.
  - simpl. tauto.
  - pose proof (warn_leaves self [err]) as Hl.
    rewrite Forall_forall in Hl. specialize (Hl _ Hin).
    by apply leaf_no_callback in Hn.
  - inversion Hn; subst. eapply gc_issues in Hi' as [? _]; [done|tauto|done].
  - inversion Hn.
Qed.

Lemma enabled_run_falls_back cfg now this :
  cache_enabled cfg this = true ->
  store_complete (run_cache cfg now this) = true ->
  falls_back (fn this) (Machine_prototype_exec cfg now this).2.
Proof.
  intros Hen Hcomplete. apply andb_prop in Hcomplete as [Hcount Hdestroy].
  pose proof (run_cache_truthy _ now _ Hen) as Hc.
  exists (run_self cfg now this), (run_cache cfg now this).
  split; [apply run_self_fn|]. split; [by rewrite (exec_enabled _ _ _ Hen)|].
  split; [|split].
  - intros err h He. unfold on_hash. rewrite He. by apply justRun_fallback.
  - intros errh h Hh. eexists. split; [unfold on_hash; by rewrite Hh|].
    intros err cached He. unfold on_find. rewrite He. by apply justRun_fallback.
  - intros hash err c. by apply fallback_not_fatal.
Qed.

(** On a machine whose cache settings are valid and whose store also
    exposes [count] and [destroy], every invocation of a series starts by
    asking for the hash; when the hash function reports an error, and when
    [find] reports an error, the next turn hands the error to the
    machine's [warn], starts the garbage collector's [count] and runs
    [fn]; and nothing that such a turn sets off by itself is an exception
    or a call of an exit. *)
Theorem lookup_errors_fall_back_to_fn (runs : list (value * Z)) (this : Machine) :
  cache_is_valid (_cacheSettings (consume_cache_input this)) = true ->
  store_complete (_cacheSettings (consume_cache_input this)) = true ->
  Forall (falls_back (fn this)) (exec_repeatedly runs this).
Proof.
  revert this. induction runs as [|[cfg now] runs IH]; intros this Hv Hs; [constructor|].
  assert (cache_enabled cfg this = true) as Hen by by rewrite cache_enabled_any_exits.
  assert (store_complete (_cacheSettings (prepared cfg this)) = true) as Hs'.
  { rewrite <- Hs. unfold prepared. destruct (truthy cfg); [|done].
    by rewrite consume_setExits. }
  cbn [exec_repeatedly]. constructor.
  - apply enabled_run_falls_back; [done|]. by rewrite run_cache_complete.
  - fold (run_self cfg now this). rewrite <- (run_self_fn cfg now this).
    apply IH.
    + rewrite <- (cache_enabled_any_exits VUndefined).
      by apply enabled_stays_enabled.
    + change (consume_cache_input (run_self cfg now this))
        with (prepared VUndefined (run_self cfg now this)).
      rewrite (next_settings _ _ _ _ Hen). by rewrite run_cache_complete.
Qed.

Lemma justRun_without_count self _cache hash err :
  truthy _cache = true ->
  isFunction (get "count" (get "model" _cache)) = false ->
  _cacheNotAnOption_justRunMachine self _cache hash err =
  warn_if self err ++ [Throw "TypeError"].
Proof.
  intros Hc Hcount. unfold _cacheNotAnOption_justRunMachine. by rewrite Hc, Hcount.
Qed.

(** C3. The validity test asks the store for [find] and [create] only.  On
    a machine whose settings pass it and whose store has no [count]
    function, an error of the hash function and an error of [find] do not
    fall back to [fn]: the turn hands the error to the machine's [warn] and
    then throws a TypeError at the call of [_cache.model.count], which
    comes before the call of [fn]; [fn] is not run in that turn nor in any
    turn that follows from it, and the exception is not caught. *)
Theorem lookup_error_throws_without_count cfg now this err :
  cache_enabled cfg this = true ->
  isFunction (get "count" (get "model" (run_cache cfg now this))) = false ->
  truthy err = true ->
  let self := run_self cfg now this in
  let _cache := run_cache cfg now this in
  let thrown := warn self [err] ++ [Throw "TypeError"] in
  (Machine_prototype_exec cfg now this).2 = [CalculateHash self (on_hash self _cache)] /\
  (forall h, on_hash self _cache err h = thrown) /\
  (forall errh h, truthy errh = false ->
     exists c,
       on_hash self _cache errh h =
         [ModelFind (get "find" (get "model" _cache)) c (on_find self _cache h)] /\
       forall cached, on_find self _cache h err cached = thrown) /\
  (forall c, may_issue thrown c -> ~ is_RunFn c) /\
  (exists c, c ∈ thrown /\ is_fatal c).
Proof.
  intros Hen Hcount He self _cache thrown.
  pose proof (run_cache_truthy _ now _ Hen) as Hc.
  assert (forall hash,
            _cacheNotAnOption_justRunMachine self _cache hash err = thrown) as Hjust.
  { intros hash. subst thrown. rewrite <- (warn_if_truthy _ _ He).
    by apply justRun_without_count. }
  split; [by rewrite (exec_enabled _ _ _ Hen)|].
  split; [|split; [|split]].
  - intros h. unfold on_hash. by rewrite He.
  - intros errh h Hh. eexists. split; [unfold on_hash; by rewrite Hh|].
    intros cached. unfold on_find. by rewrite He.
  - intros c Hi. subst thrown.
    assert (Forall is_leaf (warn self [err] ++ [Throw "TypeError"])) as Hl.
    { apply Forall_app. split; [apply warn_leaves|repeat constructor]. }
    apply issued_leaves in Hi; [|tauto|done].
    rewrite Forall_forall in Hl. specialize (Hl _ Hi).
    destruct c; simpl in *; tauto.
  - exists (Throw "TypeError"). split; [|done].
    subst thrown. apply elem_of_app. right. apply list_elem_of_here.
Qed.
End FallbackRuns.

(** Two invocations of the sample machine, whose store has [count] and
    [destroy]. *)
Lemma lookup_errors_fall_back_to_fn_witness :
  Forall (falls_back (H := Sample.externals) (VFun 1))
    (exec_repeatedly (H := Sample.externals)
       [(VUndefined, 1000); (VUndefined, 2000)] Sample.machine).
Proof.
  apply (lookup_errors_fall_back_to_fn (H := Sample.externals)
           [(VUndefined, 1000); (VUndefined, 2000)] Sample.machine);
    reflexivity.
Defined.

(** Witness of C3: the lookup of a store with [find] and [create] only
    fails; the warning is followed by the exception, and [fn] is not run. *)
Lemma lookup_error_throws_without_count_witness :
  cache_enabled (H := Sample.externals) VUndefined Demo.bare_machine = true /\
  on_find (H := Sample.externals)
    (run_self (H := Sample.externals) VUndefined 1000 Demo.bare_machine)
    (run_cache (H := Sample.externals) VUndefined 1000 Demo.bare_machine)
    (VStr "h1") (VStr "find failed") []
  = [ConsoleError [VStr "find failed"]; Throw "TypeError"].
Proof.
  split; [reflexivity|].
  destruct (lookup_error_throws_without_count (H := Sample.externals)
              VUndefined 1000 Demo.bare_machine (VStr "find failed")
              eq_refl eq_refl eq_refl) as (_ & _ & Hfind & _).
  destruct (Hfind VNull (VStr "h1") eq_refl) as (c & _ & Hturn).
  exact (Hturn []).
Defined.

(** ** The arguments of [fn] *)

Section Arguments.
Context `{Externals}.

Lemma run_self_contexts cfg now this :
  _configuredContexts (run_self cfg now this) = _configuredContexts this.
Proof.
  unfold run_self, Machine_prototype_exec, consume_cache_input. cbn [fst].
  destruct (cache_is_valid _), (truthy (default _ _)), (truthy cfg); done.
Qed.

Lemma fn_receives_contexts cfg now this f r inputs exits env :
  may_issue (Machine_prototype_exec cfg now this).2 (RunFn f r inputs exits env) ->
  f = fn this /\
  r = ThisValue (_configuredContexts this) /\
  inputs = _configuredInputs (run_self cfg now this) /\
  (exists hash,
      exits = switchback_of
                (interceptedExits (run_self cfg now this) (run_cache cfg now this) hash)) /\
  env = _configuredContexts this.
Proof.
  intros Hi. apply exec_runs_fn_once in Hi as [hash Hc]; [|done].
  unfold the_run in Hc. simplify_eq. rewrite run_self_fn, run_self_contexts. eauto 10.
Qed.

(** C4. Every call of [fn] that a run of the caching [exec] may issue has
    three arguments: the configured inputs, the switchback of the exit table
    with the cacheable exit possibly intercepted, and [_configuredContexts], which is
    also what [fn] is applied to.  The dependencies are not passed; the
    [exec] of lib/Machine.js is the one that passes them. *)
Theorem cached_exec_passes_contexts_for_dependencies cfg now this f r inputs exits env :
  may_issue (Machine_prototype_exec cfg now this).2 (RunFn f r inputs exits env) ->
  (f = fn this /\
   r = ThisValue (_configuredContexts this) /\
   inputs = _configuredInputs (run_self cfg now this) /\
   (exists hash,
       exits = switchback_of
                 (interceptedExits (run_self cfg now this) (run_cache cfg now this) hash)) /\
   env = _configuredContexts this) /\
  exists m, (exec cfg this).2 =
    [RunFn (fn this) (ThisMachine m) (_configuredInputs this)
       (switchback (_configuredExits m)) (_dependencies this)].
Proof.
  intros Hi. split; [by apply fn_receives_contexts|].
  unfold exec. destruct (truthy cfg); eexists; reflexivity.
Qed.
End Arguments.

(** Witness of C4: a machine that has dependencies and no
    [_configuredContexts]; [fn] receives [undefined] in their place. *)
Lemma cached_exec_passes_contexts_for_dependencies_witness :
  (Machine_prototype_exec (H := Sample.externals) VUndefined 1000 Sample.plain_machine).2 =
    [RunFn (VFun 1) (ThisValue VUndefined) {[ "x" := VNum 7 ]}
       (switchback Sample.exits) VUndefined] /\
  VUndefined = _configuredContexts Sample.plain_machine /\
  _configuredContexts Sample.plain_machine <> _dependencies Sample.plain_machine.
Proof.
  split; [reflexivity|]. split; [|discriminate].
  destruct (cached_exec_passes_contexts_for_dependencies (H := Sample.externals)
              VUndefined 1000 Sample.plain_machine
              (VFun 1) (ThisValue VUndefined) {[ "x" := VNum 7 ]}
              (switchback Sample.exits) VUndefined) as [(_ & _ & _ & _ & Henv) _].
  - apply issued_here. apply list_elem_of_here.
  - exact Henv.
Defined.

(** ** When the garbage collector starts *)

Section CollectorStart.
Context `{Externals}.

Lemma gc_not_awaited self _cache hash err :
  truthy _cache = true ->
  isFunction (get "count" (get "model" _cache)) = true ->
  _cacheNotAnOption_justRunMachine self _cache hash err =
    warn_if self err ++
    [ModelCount (get "count" (get "model" _cache)) (gc_count_criteria _cache hash)
       (on_count self _cache hash);
     the_run self _cache hash].
Proof.
  intros Hc Hcount. unfold _cacheNotAnOption_justRunMachine. by rewrite Hc, Hcount.
Qed.

(** The garbage collector is not started by a hit, nor by anything the unit
    does with its exits ([unit_never_runs_fn]). *)
Lemma gc_not_started_by_hit self _cache hash err e rest c :
  truthy err = false -> is_defined (entry_data e) = true ->
  may_issue (on_find self _cache hash err (e :: rest)) c -> ~ is_gc_op c.
Proof.
  intros He Hd Hi. rewrite on_find_hit in Hi by done.
  by apply named_never_runs_fn in Hi as [_ ?].
Qed.

(** C6. In a run with caching enabled, when the hash function reports an
    error, the next turn warns, issues the garbage collector's [count] with
    [hash: undefined] in its criteria, and runs [fn] in the same turn; a
    count above the buffer then leads to a [destroy] with [hash: undefined]
    as well. *)
Theorem gc_starts_after_hash_failure cfg now this err h n :
  cache_enabled cfg this = true ->
  store_complete (run_cache cfg now this) = true ->
  truthy err = true ->
  js_gt n (get "maxOldEntriesBuffer" (run_cache cfg now this)) = true ->
  let self := run_self cfg now this in
  let _cache := run_cache cfg now this in
  (Machine_prototype_exec cfg now this).2 = [CalculateHash self (on_hash self _cache)] /\
  on_hash self _cache err h =
    warn self [err] ++
    [ModelCount (get "count" (get "model" _cache)) (gc_count_criteria _cache VUndefined)
       (on_count self _cache VUndefined);
     the_run self _cache VUndefined] /\
  where_hash (gc_count_criteria _cache VUndefined) = VUndefined /\
  on_count self _cache VUndefined VUndefined n =
    [ModelDestroy (get "destroy" (get "model" _cache))
       (gc_destroy_criteria _cache VUndefined) (on_destroy self)] /\
  where_hash (gc_destroy_criteria _cache VUndefined) = VUndefined.
Proof.
  intros Hen Hcomplete He Hgt self _cache.
  apply andb_prop in Hcomplete as [Hcount Hdestroy].
  split; [by rewrite (exec_enabled _ _ _ Hen)|].
  split.
  { unfold on_hash. rewrite He, gc_not_awaited; [|by apply run_cache_truthy|done].
    by rewrite warn_if_truthy. }
  split; [done|]. split; [|done].
  subst self _cache. unfold on_count. by rewrite Hgt, Hdestroy.
Qed.
End CollectorStart.

(** Witness of C6: the hash of the sample machine's inputs cannot be
    computed. *)
Lemma gc_starts_after_hash_failure_witness :
  on_hash (H := Sample.externals)
    (run_self (H := Sample.externals) VUndefined 1000 Sample.machine)
    (run_cache (H := Sample.externals) VUndefined 1000 Sample.machine)
    (VStr "not serializable") VUndefined =
  [ConsoleError [VStr "not serializable"];
   ModelCount (VFun 13)
     {| where_createdAt := (LE, VDate (Some (1000 - 10800000)));
        where_hash := VUndefined;
        crit_sort := None; crit_limit := None; crit_skip := None |}
     (on_count (H := Sample.externals)
        (run_self (H := Sample.externals) VUndefined 1000 Sample.machine)
        (run_cache (H := Sample.externals) VUndefined 1000 Sample.machine)
        VUndefined);
   the_run (run_self (H := Sample.externals) VUndefined 1000 Sample.machine)
     (run_cache (H := Sample.externals) VUndefined 1000 Sample.machine) VUndefined].
Proof.
  destruct (gc_starts_after_hash_failure (H := Sample.externals)
              VUndefined 1000 Sample.machine (VStr "not serializable") VUndefined
              (Some 2))
    as (_ & Hturn & _); [reflexivity..|].
  exact Hturn.
Defined.

(** ** The reserved input *)

Section ReservedInput.
Context `{Externals}.

Lemma prepared_inputs_consumed cfg this c :
  _configuredInputs this !! "_cache" = Some c -> truthy c = true ->
  _configuredInputs (prepared cfg this) = delete "_cache" (_configuredInputs this) /\
  _cacheSettings (prepared cfg this) = extend (_cacheSettings this) c.
Proof.
  intros Hin Hc. unfold prepared, consume_cache_input.
  assert (_configuredInputs (if truthy cfg then setExits this cfg else this)
          = _configuredInputs this) as -> by by destruct (truthy cfg).
  rewrite Hin. simpl. rewrite Hc. simpl. by destruct (truthy cfg).
Qed.

(** C9, amended. When the reserved input [_cache] is truthy, the settings
    that the validity test sees are [_.extend] of the machine's settings
    and the input's value (property by property, where both are plain
    objects), the key is deleted from the inputs, and every call of [fn]
    that the run may issue receives inputs without that key and with all
    other entries as they were. *)
Theorem truthy_cache_input_is_consumed cfg now this c :
  _configuredInputs this !! "_cache" = Some c ->
  truthy c = true ->
  _cacheSettings (prepared cfg this) = extend (_cacheSettings this) c /\
  (forall a props b overrides k,
      _cacheSettings this = VObj a props -> c = VObj b overrides ->
      get k (_cacheSettings (prepared cfg this)) =
      match overrides !! k with
      | Some v => v
      | None => get k (_cacheSettings this)
      end) /\
  (forall f r inputs exits env,
      may_issue (Machine_prototype_exec cfg now this).2 (RunFn f r inputs exits env) ->
      inputs !! "_cache" = None /\
      forall k, k <> "_cache" -> inputs !! k = _configuredInputs this !! k).
Proof.
  intros Hin Hc.
  destruct (prepared_inputs_consumed cfg _ _ Hin Hc) as [Hinputs Hsettings].
  split; [done|]. split.
  - intros a props b overrides k Ha Hb. rewrite Hsettings, Ha, Hb. simpl.
    rewrite lookup_union. by destruct (overrides !! k), (props !! k).
  - intros f r inputs exits env Hi.
    apply fn_receives_contexts in Hi as (_ & _ & -> & _).
    rewrite run_self_inputs, Hinputs. split.
    + apply lookup_delete_eq.
    + intros k Hk. by apply lookup_delete_ne.
Qed.
End ReservedInput.

(** Witness of the amended C9: settings passed in the reserved input. *)
Lemma truthy_cache_input_is_consumed_witness :
  get "ttl" (_cacheSettings
               (prepared (H := Sample.externals) VUndefined Sample.overridden_machine))
  = VNum 60000.
Proof.
  destruct (truthy_cache_input_is_consumed (H := Sample.externals)
              VUndefined 1000 Sample.overridden_machine Sample.override)
    as (_ & Hmerge & _); [reflexivity|reflexivity|].
  rewrite (Hmerge 20%positive _ 22%positive _ "ttl" eq_refl eq_refl). reflexivity.
Defined.

(** C9 as stated fails: a caller supplies [_cache: false]; the key is not
    removed and [fn] receives it. *)
Lemma falsy_cache_input_reaches_fn :
  is_Some (_configuredInputs Sample.opted_out_machine !! "_cache") /\
  (Machine_prototype_exec (H := Sample.externals) VUndefined 1000
     Sample.opted_out_machine).2 =
    [RunFn (VFun 1) (ThisValue VUndefined)
       (<["_cache" := VBool false]> {[ "x" := VNum 7 ]})
       (switchback Sample.exits) VUndefined] /\
  ~ (forall f r inputs exits env,
        may_issue (Machine_prototype_exec (H := Sample.externals) VUndefined 1000
                     Sample.opted_out_machine).2 (RunFn f r inputs exits env) ->
        inputs !! "_cache" = None).
Proof.
  split; [by eexists|]. split; [reflexivity|].
  intros Hall.
  specialize (Hall (VFun 1) (ThisValue VUndefined)
                (<["_cache" := VBool false]> {[ "x" := VNum 7 ]})
                (switchback Sample.exits) VUndefined).
  discriminate Hall. apply issued_here. apply list_elem_of_here.
Qed.

(** ** The reference store *)

Section StoreFacts.
Import Store.

#[local] Instance newer_or_same_trans : Transitive newer_or_same.
Proof. unfold newer_or_same. intros x y z ? ?. lia. Qed.

#[local] Instance newer_or_same_total : Total newer_or_same.
Proof. unfold newer_or_same. intros x y. lia. Qed.

Lemma newest_first_perm l : newest_first l ≡ₚ l.
Proof. apply merge_sort_Permutation. Qed.

Lemma newest_first_sorted l : StronglySorted newer_or_same (newest_first l).
Proof. apply StronglySorted_merge_sort; apply _. Qed.

Lemma elem_of_newest_first e l : e ∈ newest_first l <-> e ∈ l.
Proof. by rewrite newest_first_perm. Qed.

Lemma length_newest_first l : length (newest_first l) = length l.
Proof. by rewrite newest_first_perm. Qed.

(** The first of a sorted list is the newest. *)
Lemma newest_first_head l e rest x :
  newest_first l = e :: rest -> x ∈ l -> entry_createdAt x <= entry_createdAt e.
Proof.
  intros Hs Hx. pose proof (newest_first_sorted l) as Hsorted.
  rewrite Hs in Hsorted. apply StronglySorted_cons in Hsorted as [Hall _].
  apply elem_of_newest_first in Hx. rewrite Hs in Hx.
  apply elem_of_cons in Hx as [->|Hx]; [lia|].
  rewrite Forall_forall in Hall. by apply Hall.
Qed.

Lemma matches_spec c e :
  matches c e <->
  strict_eq (where_hash c) (entry_hash e) /\
  exists cutoff, timestamp (where_createdAt c).2 = Some cutoff /\
    match (where_createdAt c).1 with
    | GT => cutoff < entry_createdAt e
    | LE => entry_createdAt e <= cutoff
    end.
Proof.
  unfold matches. rewrite andb_True.
  destruct (timestamp _) as [cutoff|];
    [|split; [by intros [_ ?]|by intros [_ (? & ? & _)]]].
  destruct (where_createdAt c).1; simpl.
  - split.
    + intros [? Hlt]. apply Is_true_true, Z.ltb_lt in Hlt. eauto.
    + intros [? (? & [= <-] & ?)]. split; [done|]. by apply Is_true_true, Z.ltb_lt.
  - split.
    + intros [? Hle]. apply Is_true_true, Z.leb_le in Hle. eauto.
    + intros [? (? & [= <-] & ?)]. split; [done|]. by apply Is_true_true, Z.leb_le.
Qed.

Lemma sorted_elem_of c l e : e ∈ sorted c l <-> e ∈ l.
Proof. unfold sorted. destruct (crit_sort c); [apply elem_of_newest_first|done]. Qed.

Lemma limited_subset c l : limited c l ⊆ l.
Proof. unfold limited. destruct (crit_limit c); [apply subseteq_take|done]. Qed.

Lemma selected_subset c s e : e ∈ selected c s -> e ∈ s /\ matches c e.
Proof.
  unfold selected. intros Hin.
  apply limited_subset, subseteq_drop, sorted_elem_of in Hin.
  by apply list_elem_of_filter in Hin as [? ?].
Qed.

(** A query that sorts newest first, skips nothing and limits to one
    entry returns the newest entry that matches, if there is one. *)
Lemma find_newest c s e dir :
  crit_sort c = Some dir -> crit_skip c = None -> crit_limit c = Some 1 ->
  e ∈ s -> matches c e ->
  exists e', find c s = [e'] /\ e' ∈ s /\ matches c e' /\
             entry_createdAt e <= entry_createdAt e'.
Proof.
  intros Hsort Hskip Hlimit Hin Hm.
  unfold find, selected, limited, sorted, skip_count.
  rewrite Hsort, Hskip, Hlimit. simpl. rewrite drop_0.
  assert (e ∈ filter (fun e => matches c e) s) as Hf
    by by apply list_elem_of_filter.
  destruct (newest_first (filter (fun e => matches c e) s)) as [|e' rest] eqn:Hs.
  { apply elem_of_newest_first in Hf. rewrite Hs in Hf. by apply elem_of_nil in Hf. }
  exists e'. split; [done|].
  assert (e' ∈ filter (fun e => matches c e) s) as He'.
  { apply elem_of_newest_first. rewrite Hs. apply list_elem_of_here. }
  apply list_elem_of_filter in He' as [? ?].
  repeat split; try done. by eapply newest_first_head.
Qed.

Lemma find_nothing c s :
  (forall e, e ∈ s -> ¬ matches c e) -> find c s = [].
Proof.
  intros Hno. destruct (find c s) as [|e rest] eqn:Hf; [done|].
  assert (e ∈ selected c s) as Hin by (unfold find in Hf; rewrite Hf; apply list_elem_of_here).
  apply selected_subset in Hin as [Hin Hm]. by apply Hno in Hin.
Qed.
End StoreFacts.

(** ** The freshness boundary *)

Section Freshness.
Context `{Externals}.

Lemma find_criteria_matches h cutoff (x : entry) :
  Store.matches
    (buildFindCriteria {| opt_hash := h; opt_expirationDate := VDate (Some cutoff) |}) x <->
  Store.strict_eq h (entry_hash x) /\ cutoff < entry_createdAt x.
Proof.
  rewrite matches_spec. simpl.
  split; [intros [? (? & [= <-] & ?)]; done|intros [? ?]; eauto].
Qed.

(** C7. After the hash, the lookup issues one [find] whose criteria hold
    the hash, [createdAt > expirationDate], ['createdAt DESC'] and limit 1.
    A store that follows them selects an entry exactly when it has the
    hash and was created strictly after the cutoff: an entry created at
    the cutoff is in no reply, a store without anything newer gives a
    miss, and an entry created after the cutoff gives a reply of one
    entry, itself or a newer one. *)
Theorem lookup_selects_strictly_newer self _cache h err cutoff
    (s : list entry) (e : entry) :
  truthy err = false ->
  get "expirationDate" _cache = VDate (Some cutoff) ->
  let c := buildFindCriteria
             {| opt_hash := h;
                opt_expirationDate := get "expirationDate" _cache |} in
  on_hash self _cache err h =
    [ModelFind (get "find" (get "model" _cache)) c (on_find self _cache h)] /\
  c = {| where_createdAt := (GT, VDate (Some cutoff));
         where_hash := h;
         crit_sort := Some "createdAt DESC";
         crit_limit := Some 1;
         crit_skip := None |} /\
  (Store.matches c e <->
   Store.strict_eq h (entry_hash e) /\ cutoff < entry_createdAt e) /\
  (entry_createdAt e = cutoff -> e ∉ Store.find c s) /\
  ((forall x, x ∈ s -> entry_createdAt x <= cutoff) ->
   on_find self _cache h err (Store.find c s) =
   _cacheNotAnOption_justRunMachine self _cache h VUndefined) /\
  (e ∈ s -> Store.strict_eq h (entry_hash e) -> cutoff < entry_createdAt e ->
   exists e', Store.find c s = [e'] /\ e' ∈ s /\
              Store.strict_eq h (entry_hash e') /\
              cutoff < entry_createdAt e' /\
              entry_createdAt e <= entry_createdAt e').
Proof.
  intros He Hcut c.
  assert (forall x, Store.matches c x <->
            Store.strict_eq h (entry_hash x) /\ cutoff < entry_createdAt x) as Hm.
  { intros x. subst c. rewrite Hcut. apply find_criteria_matches. }
  split; [unfold on_hash; by rewrite He|].
  split; [subst c; unfold buildFindCriteria; simpl; by rewrite Hcut|].
  split; [apply Hm|]. split; [|split].
  - intros Heq Hin. apply selected_subset in Hin as [_ Hin].
    apply Hm in Hin as [_ Hin]. lia.
  - intros Hold. rewrite find_nothing.
    + unfold on_find. by rewrite He.
    + intros x Hx Hmx. apply Hm in Hmx as [_ Hmx]. specialize (Hold _ Hx). lia.
  - intros Hin Hhash Hnew.
    destruct (find_newest c s e "createdAt DESC") as (e' & Hf & Hin' & Hm' & Hle);
      try done; [by apply Hm|].
    apply Hm in Hm' as [? ?]. by exists e'.
Qed.

(** With such a store, a fresh entry means a hit with the data of the
    newest fresh entry, when that entry has data. *)
Lemma fresh_entry_is_replayed self _cache h err cutoff (s : list entry) (e : entry) :
  truthy err = false ->
  get "expirationDate" _cache = VDate (Some cutoff) ->
  e ∈ s -> Store.strict_eq h (entry_hash e) -> cutoff < entry_createdAt e ->
  (forall x, x ∈ s -> is_defined (entry_data x) = true) ->
  let c := buildFindCriteria
             {| opt_hash := h;
                opt_expirationDate := get "expirationDate" _cache |} in
  exists e', Store.find c s = [e'] /\ e' ∈ s /\
             entry_createdAt e <= entry_createdAt e' /\
             on_find self _cache h err (Store.find c s) =
               invoke_named (switchback (_configuredExits self)) "success"
                            [entry_data e'].
Proof.
  intros He Hcut Hin Hhash Hnew Hdata c. subst c. rewrite Hcut.
  destruct (find_newest
              (buildFindCriteria
                 {| opt_hash := h; opt_expirationDate := VDate (Some cutoff) |})
              s e "createdAt DESC")
    as (e' & Hf & Hin' & _ & Hle); try done; [by apply find_criteria_matches|].
  exists e'. rewrite Hf. repeat split; try done.
  apply on_find_hit; [done|]. by apply Hdata.
Qed.
End Freshness.

(** Witness of C7: a store with one entry at the cutoff of the sample run. *)
Lemma lookup_selects_strictly_newer_witness :
  {| entry_hash := VStr "h1"; entry_data := Sample.result;
     entry_createdAt := 1000 - 10800000 |}
  ∉ Store.find
      (buildFindCriteria
         {| opt_hash := VStr "h1";
            opt_expirationDate :=
              get "expirationDate"
                (run_cache (H := Sample.externals) VUndefined 1000 Sample.machine) |})
      [{| entry_hash := VStr "h1"; entry_data := Sample.result;
          entry_createdAt := 1000 - 10800000 |}].
Proof.
  apply (lookup_selects_strictly_newer (H := Sample.externals)
           (run_self (H := Sample.externals) VUndefined 1000 Sample.machine)
           (run_cache (H := Sample.externals) VUndefined 1000 Sample.machine)
           (VStr "h1") VNull (1000 - 10800000)); reflexivity.
Defined.

(** ** Garbage collection *)

Section Collector.
Context `{Externals}.
Import Store.

Lemma filter_none {A} (P : A -> Prop) `{!forall x, Decision (P x)} (l : list A) :
  Forall (fun x => ¬ P x) l -> filter P l = [].
Proof.
  induction 1 as [|x l Hx _ IH]; [done|].
  by rewrite filter_cons_False.
Qed.

Lemma filter_all {A} (P : A -> Prop) `{!forall x, Decision (P x)} (l : list A) :
  Forall P l -> filter P l = l.
Proof.
  induction 1 as [|x l Hx _ IH]; [done|].
  rewrite filter_cons_True by done. by rewrite IH.
Qed.

(** What [destroy] with a sort and a skip removes and what it leaves. *)
Lemma destroy_keeps_newest c s dir :
  crit_sort c = Some dir ->
  let stale := filter (fun e => matches c e) s in
  let kept := take (skip_count c) (newest_first stale) in
  let victims := drop (skip_count c) (newest_first stale) in
  s ≡ₚ destroy c s ++ victims /\
  filter (fun e => matches c e) (destroy c s) = kept /\
  length victims = (length stale - skip_count c)%nat /\
  ((skip_count c <= length stale)%nat -> length kept = skip_count c) /\
  (forall k v, k ∈ kept -> v ∈ victims -> entry_createdAt v <= entry_createdAt k).
Proof.
  intros Hsort stale kept victims.
  assert (destroy c s = filter (fun e => ¬ matches c e) s ++ kept) as Hd.
  { unfold destroy, sorted. by rewrite Hsort. }
  assert (newest_first stale = kept ++ victims) as Hsplit
    by (symmetry; apply take_drop).
  split; [|split; [|split; [|split]]].
  - rewrite Hd, <- (assoc_L (++)), <- Hsplit, newest_first_perm.
    subst stale. rewrite (comm (++)). symmetry. apply filter_app_complement.
  - rewrite Hd, filter_app, filter_none, filter_all; [done| |].
    + apply Forall_forall. intros e He.
      apply subseteq_take in He. rewrite elem_of_newest_first in He.
      by apply list_elem_of_filter in He as [? _].
    + apply Forall_forall. intros e He.
      by apply list_elem_of_filter in He as [? _].
  - subst victims. by rewrite length_drop, length_newest_first.
  - intros Hle. subst kept. apply length_take_le. by rewrite length_newest_first.
  - intros k v Hk Hv. pose proof (newest_first_sorted stale) as Hsorted.
    rewrite Hsplit in Hsorted.
    by apply (StronglySorted_app_1_elem_of _ _ _ _ _ Hsorted Hk Hv).
Qed.

(** C5. On a miss with caching enabled the collector counts the entries
    of the hash created at or before the cutoff.  When the store reports
    more of them than [maxOldEntriesBuffer], one [destroy] is issued (after
    the warning, if [count] also reported an error), for
    that hash and [createdAt <= expirationDate], sorted ['createdAt DESC']
    with [skip: maxOldEntriesBuffer]; a store that follows it deletes the
    count minus the buffer of them, none newer than any it keeps, and
    keeps the buffer's number of the newest.  Otherwise no [destroy] is
    issued. *)
Theorem gc_keeps_newest_stale self _cache hash cutoff b errc (s : list entry) :
  truthy _cache = true ->
  store_complete _cache = true ->
  get "expirationDate" _cache = VDate (Some cutoff) ->
  get "maxOldEntriesBuffer" _cache = VNum b ->
  0 <= b ->
  let crit := gc_destroy_criteria _cache hash in
  let N := count (gc_count_criteria _cache hash) s in
  let stale := filter (fun e => matches crit e) s in
  let kept := take (Z.to_nat b) (newest_first stale) in
  let victims := drop (Z.to_nat b) (newest_first stale) in
  (forall err,
      _cacheNotAnOption_justRunMachine self _cache hash err =
      warn_if self err ++
      [ModelCount (get "count" (get "model" _cache)) (gc_count_criteria _cache hash)
         (on_count self _cache hash);
       the_run self _cache hash]) /\
  (forall e, e ∈ stale <->
             e ∈ s /\ strict_eq hash (entry_hash e) /\ entry_createdAt e <= cutoff) /\
  N = Z.of_nat (length stale) /\
  (N <= b -> on_count self _cache hash errc (Some N) = warn_if self errc) /\
  (b < N ->
   on_count self _cache hash errc (Some N) =
     warn_if self errc ++
     [ModelDestroy (get "destroy" (get "model" _cache)) crit (on_destroy self)] /\
   crit = {| where_createdAt := (LE, VDate (Some cutoff));
             where_hash := hash;
             crit_sort := Some "createdAt DESC";
             crit_limit := None;
             crit_skip := Some (VNum b) |} /\
   s ≡ₚ destroy crit s ++ victims /\
   filter (fun e => matches crit e) (destroy crit s) = kept /\
   Z.of_nat (length victims) = N - b /\
   Z.of_nat (length kept) = b /\
   (forall k v, k ∈ kept -> v ∈ victims -> entry_createdAt v <= entry_createdAt k)).
Proof.
  intros Hc Hcomplete Hcut Hbuf Hb crit N stale kept victims.
  apply andb_prop in Hcomplete as [Hcount Hdestroy].
  assert (skip_count crit = Z.to_nat b) as Hskip.
  { unfold skip_count. subst crit. simpl. by rewrite Hbuf. }
  assert (N = Z.of_nat (length stale)) as HN by done.
  split; [intros err; by apply gc_not_awaited|].
  split.
  { intros e. subst stale. rewrite list_elem_of_filter, matches_spec.
    subst crit. simpl. rewrite Hcut. simpl.
    split; [intros [[? (? & [= <-] & ?)] ?]; done|intros (? & ? & ?); eauto]. }
  split; [done|].
  split.
  { intros Hle. unfold on_count, js_gt. rewrite Hbuf. simpl.
    destruct (Z.ltb_spec b N); [lia|]. by rewrite app_nil_r. }
  intros Hlt.
  destruct (destroy_keeps_newest crit s "createdAt DESC" eq_refl)
    as (Hperm & Hkept & Hlv & Hlk & Horder).
  rewrite Hskip in *.
  split.
  { unfold on_count, js_gt. rewrite Hbuf, Hdestroy. simpl.
    by destruct (Z.ltb_spec b N); [|lia]. }
  split.
  { subst crit. unfold gc_destroy_criteria. by rewrite Hcut, Hbuf. }
  split; [done|]. split; [done|].
  split; [|split; [|done]].
  - fold stale in Hlv. subst victims. rewrite Hlv. lia.
  - fold stale in Hlk. subst kept. rewrite Hlk; lia.
Qed.
End Collector.

(** Witness of C5: three stale entries and a buffer of one. *)
Lemma gc_keeps_newest_stale_witness :
  on_count (H := Sample.externals)
    (run_self (H := Sample.externals) VUndefined 1000 Sample.machine)
    (run_cache (H := Sample.externals) VUndefined 1000 Sample.machine)
    (VStr "h1") VNull
    (Some (Store.count
             (gc_count_criteria
                (run_cache (H := Sample.externals) VUndefined 1000 Sample.machine)
                (VStr "h1"))
             Sample.old_entries))
  = [ModelDestroy (VFun 14)
       (gc_destroy_criteria
          (run_cache (H := Sample.externals) VUndefined 1000 Sample.machine)
          (VStr "h1"))
       (on_destroy (run_self (H := Sample.externals) VUndefined 1000 Sample.machine))].
Proof.
  destruct (gc_keeps_newest_stale (H := Sample.externals)
              (run_self (H := Sample.externals) VUndefined 1000 Sample.machine)
              (run_cache (H := Sample.externals) VUndefined 1000 Sample.machine)
              (VStr "h1") (1000 - 10800000) 1 VNull Sample.old_entries)
    as (_ & _ & _ & _ & Hgc); [reflexivity|reflexivity|reflexivity|reflexivity|lia|].
  apply Hgc. vm_compute. reflexivity.
Defined.

Example gc_sample_store :
  Store.destroy
    (gc_destroy_criteria
       (run_cache (H := Sample.externals) VUndefined 1000 Sample.machine) (VStr "h1"))
    Sample.old_entries
  = [ {| entry_hash := VStr "h1"; entry_data := VNum 2; entry_createdAt := -20000000 |} ].
Proof. reflexivity. Qed.


(** ** Sample runs *)

(** A miss on an empty store: hash, lookup, count, the unit, the write, the
    exit. *)
Example cold_store_miss :
  run_loop 10 Sample.first_call
    [(Machine_prototype_exec (H := Sample.externals) VUndefined 1000 Sample.machine).2] []
  = ([{| entry_hash := VStr "h1"; entry_data := Sample.result; entry_createdAt := 1000 |}],
     [EvHash;
      EvFind {| where_createdAt := (GT, VDate (Some (1000 - 10800000)));
                where_hash := VStr "h1"; crit_sort := Some "createdAt DESC";
                crit_limit := Some 1; crit_skip := None |};
      EvCount {| where_createdAt := (LE, VDate (Some (1000 - 10800000)));
                 where_hash := VStr "h1"; crit_sort := None;
                 crit_limit := None; crit_skip := None |};
      EvFn {[ "x" := VNum 7 ]} VUndefined;
      EvCreate {| new_hash := VStr "h1"; new_data := Sample.result |};
      EvExit (VFun 2) [Sample.result]]).
Proof. reflexivity. Qed.

(** The next call finds the entry: the unit is not run. *)
Example warm_store_hit :
  run_loop 10 Sample.first_call
    [(Machine_prototype_exec (H := Sample.externals) VUndefined 2000 Sample.machine).2]
    [{| entry_hash := VStr "h1"; entry_data := Sample.result; entry_createdAt := 1000 |}]
  = ([{| entry_hash := VStr "h1"; entry_data := Sample.result; entry_createdAt := 1000 |}],
     [EvHash;
      EvFind {| where_createdAt := (GT, VDate (Some (2000 - 10800000)));
                where_hash := VStr "h1"; crit_sort := Some "createdAt DESC";
                crit_limit := Some 1; crit_skip := None |};
      EvExit (VFun 2) [Sample.result]]).
Proof. reflexivity. Qed.

(** A miss over three stale entries with a buffer of one: the two oldest
    are destroyed. *)
Example stale_entries_collected :
  run_loop 10 Sample.first_call
    [(Machine_prototype_exec (H := Sample.externals) VUndefined 1000 Sample.machine).2]
    Sample.old_entries
  = ([{| entry_hash := VStr "h1"; entry_data := VNum 2; entry_createdAt := -20000000 |};
      {| entry_hash := VStr "h1"; entry_data := Sample.result; entry_createdAt := 1000 |}],
     [EvHash;
      EvFind {| where_createdAt := (GT, VDate (Some (1000 - 10800000)));
                where_hash := VStr "h1"; crit_sort := Some "createdAt DESC";
                crit_limit := Some 1; crit_skip := None |};
      EvCount {| where_createdAt := (LE, VDate (Some (1000 - 10800000)));
                 where_hash := VStr "h1"; crit_sort := None;
                 crit_limit := None; crit_skip := None |};
      EvFn {[ "x" := VNum 7 ]} VUndefined;
      EvDestroy {| where_createdAt := (LE, VDate (Some (1000 - 10800000)));
                   where_hash := VStr "h1"; crit_sort := Some "createdAt DESC";
                   crit_limit := None; crit_skip := Some (VNum 1) |};
      EvCreate {| new_hash := VStr "h1"; new_data := Sample.result |};
      EvExit (VFun 2) [Sample.result]]).
Proof. reflexivity. Qed.

(** A hash that cannot be computed: a warning, the collector's count with
    no hash, the unit, and its exit without a write. *)
Example hash_failure_run :
  run_loop 10 Sample.failing_hash_call
    [(Machine_prototype_exec (H := Sample.externals) VUndefined 2000 Sample.machine).2] []
  = ([],
     [EvHash;
      EvWarn [VStr "not serializable"];
      EvCount {| where_createdAt := (LE, VDate (Some (2000 - 10800000)));
                 where_hash := VUndefined; crit_sort := None;
                 crit_limit := None; crit_skip := None |};
      EvFn {[ "x" := VNum 7 ]} VUndefined;
      EvExit (VFun 2) [Sample.result]]).
Proof. reflexivity. Qed.

(** Without cache settings: the unit and its exit. *)
Example plain_run :
  run_loop 10 Sample.first_call
    [(Machine_prototype_exec (H := Sample.externals) VUndefined 1000
        Sample.plain_machine).2] []
  = ([], [EvFn {[ "x" := VNum 7 ]} VUndefined; EvExit (VFun 2) [Sample.result]]).
Proof. reflexivity. Qed.

(** * Further properties of the two files *)

(** ** Walking the turns *)

Lemma issued_nil next c : ~ issued next [] c.
Proof. intros Hi. inversion Hi; subst; elems. Qed.

Lemma issued_cons next c0 t c :
  issued next (c0 :: t) c <->
  c = c0 \/ (exists t', next c0 t' /\ issued next t' c) \/ issued next t c.
Proof.
  split.
  - intros Hi. inversion Hi as [? ? Hin | ? c1 t' ? Hin Hn Hi']; subst.
    + apply elem_of_cons in Hin as [->|Hin]; [by left|].
      right; right. by apply issued_here.
    + apply elem_of_cons in Hin as [->|Hin]; [right; left; eauto|].
      right; right. by eapply issued_later.
  - intros [->|[(t' & Hn & Hi)|Hi]].
    + apply issued_here, list_elem_of_here.
    + eapply issued_later; [apply list_elem_of_here|done..].
    + inversion Hi as [? ? Hin | ? c1 t' ? Hin Hn Hi']; subst.
      * apply issued_here. by apply list_elem_of_further.
      * eapply issued_later; [by apply list_elem_of_further|done..].
Qed.

Lemma issued_app next t1 t2 c :
  issued next (t1 ++ t2) c <-> issued next t1 c \/ issued next t2 c.
Proof.
  induction t1 as [|c0 t1 IH]; simpl.
  - split; [by right|]. intros [Hi|Hi]; [by apply issued_nil in Hi|done].
  - rewrite !issued_cons, IH. tauto.
Qed.

Lemma issued_mono (next next' : cmd -> turn -> Prop) t c :
  (forall c0 t', next c0 t' -> next' c0 t') ->
  issued next t c -> issued next' t c.
Proof.
  intros Hsub. induction 1 as [t c Hin | t c0 t' c Hin Hn _ IH].
  - by apply issued_here.
  - eapply issued_later; [done|by apply Hsub|done].
Qed.

Lemma issued_of_leaves next t c :
  (forall c0 t', next c0 t' -> calls_back c0 t' \/ unit_uses c0 t') ->
  Forall is_leaf t -> issued next t c -> c ∈ t /\ is_leaf c.
Proof.
  intros Hnext Hl Hi. pose proof (issued_leaves _ _ _ Hnext Hl Hi) as Hin.
  split; [done|]. rewrite Forall_forall in Hl. by apply Hl.
Qed.

Lemma ok_is_callback c t : calls_back_ok c t -> calls_back c t.
Proof. destruct 1; constructor. Qed.

Lemma without_errors_may_issue t c : issues_without_errors t c -> may_issue t c.
Proof.
  apply issued_mono. intros c0 t' [Hb|Hu]; [left; by apply ok_is_callback|by right].
Qed.

(** ** The only store operations of a run *)

Section OnlyStoreOperations.
Context `{Externals}.

Lemma warn_is_warning self args c : c ∈ warn self args -> is_warning c.
Proof. unfold warn. destruct (truthy (onWarn self)); intros Hin; elems; done. Qed.

Lemma warn_if_issued next self err c :
  (forall c0 t', next c0 t' -> calls_back c0 t' \/ unit_uses c0 t') ->
  issued next (warn_if self err) c -> is_warning c /\ truthy err = true.
Proof.
  intros Hnext Hi. apply issued_leaves in Hi; [|done|apply warn_if_leaves].
  unfold warn_if in Hi. destruct (truthy err); [|elems].
  split; [by eapply warn_is_warning|done].
Qed.

Lemma warning_not_store_op c : is_warning c -> ~ is_store_op c.
Proof. destruct c; simpl; tauto. Qed.

Lemma strict_neq_name_false x v : strict_neq_name x v = false -> v = VStr x.
Proof.
  destruct v; simpl; try done. intros Heq%negb_false_iff%String.eqb_eq. by subst.
Qed.

(** A handler of the exit table is the configured exit, or the closure for
    the exit that the settings name, with a truthy cache and hash. *)
Lemma interceptedExits_handler self _cache hash name h :
  interceptedExits self _cache hash !! name = Some h ->
  exists f, _configuredExits self !! name = Some f /\
    (h = Configured f \/
     (h = CacheThenForward self _cache hash f /\ truthy _cache = true /\
      truthy hash = true /\ get "exit" _cache = VStr name)).
Proof.
  rewrite interceptedExits_lookup.
  destruct (_configuredExits self !! name) as [f|]; [|done]. simpl.
  intros [= <-]. exists f. split; [done|].
  destruct (truthy _cache), (truthy hash); simpl; eauto.
  destruct (strict_neq_name name _) eqn:Hn; [by left|].
  right. by apply strict_neq_name_false in Hn.
Qed.

Lemma handler_store_ops self _cache hash name h args c :
  interceptedExits self _cache hash !! name = Some h ->
  may_issue (invoke_handler h args) c -> is_store_op c ->
  pipeline_store_op self _cache c.
Proof.
  intros (f & Hf & [->|(-> & Hc & Hh & Hx)])%interceptedExits_handler Hi Hs.
  - simpl in Hi. apply issued_cons in Hi as [->|[(t' & [Hb|Hu] & _)|Hi]];
      [done|inversion Hb|inversion Hu|by apply issued_nil in Hi].
  - simpl in Hi. apply issued_cons in Hi as [->|[(t' & [Hb|Hu] & Hi)|Hi]].
    + right; right; right. by eexists _, _, _, _.
    + inversion Hb; subst.
      apply issued_app in Hi as [Hi|Hi].
      * apply warn_if_issued in Hi as [Hw _]; [|tauto].
        by apply warning_not_store_op in Hw.
      * apply issued_cons in Hi as [->|[(t' & [Hb'|Hu'] & _)|Hi]];
          [done|inversion Hb'|inversion Hu'|by apply issued_nil in Hi].
    + inversion Hu.
    + by apply issued_nil in Hi.
Qed.

Lemma leaves_no_store_op t c :
  Forall is_leaf t -> may_issue t c -> ~ is_store_op c.
Proof.
  intros Hl Hi. apply issued_of_leaves in Hi as [_ Hc]; [|tauto|done].
  destruct c; simpl in *; tauto.
Qed.

Lemma member_store_ops self _cache hash name m args c :
  switchback_of (interceptedExits self _cache hash) !! name = Some m ->
  may_issue (invoke_member m args) c -> is_store_op c ->
  pipeline_store_op self _cache c.
Proof.
  intros [(h & Hl & ->) | [_ Hl]]%switchback_of_member Hi Hs.
  - by eapply handler_store_ops.
  - eapply leaves_no_store_op in Hi; [done|by eapply library_member_leaves].
Qed.

Lemma named_store_ops self _cache hash name args c :
  may_issue (invoke_named (switchback_of (interceptedExits self _cache hash)) name args) c ->
  is_store_op c -> pipeline_store_op self _cache c.
Proof.
  unfold invoke_named.
  destruct (switchback_of _ !! name) as [m|] eqn:Hl; [by eapply member_store_ops|].
  intros Hi Hs. eapply leaves_no_store_op in Hi; [done|repeat constructor].
Qed.

Lemma unit_store_ops self _cache hash f r inputs env t c :
  unit_uses (RunFn f r inputs (switchback_of (interceptedExits self _cache hash)) env) t ->
  may_issue t c -> is_store_op c -> pipeline_store_op self _cache c.
Proof.
  inversion 1 as [? ? ? ? ? name m args Hl | ? ? ? ? ? args]; subst.
  - by eapply member_store_ops.
  - unfold switchback_apply. destruct (truthy _); apply named_store_ops.
Qed.

Lemma gc_store_ops self _cache hash err n c :
  truthy _cache = true ->
  may_issue (on_count self _cache hash err n) c -> is_store_op c ->
  pipeline_store_op self _cache c.
Proof.
  intros Hc Hi Hs. unfold on_count in Hi.
  apply issued_app in Hi as [Hi|Hi].
  { apply warn_if_issued in Hi as [Hw _]; [|tauto].
    by apply warning_not_store_op in Hw. }
  destruct (js_gt n _); [|by apply issued_nil in Hi].
  destruct (isFunction _).
  - apply issued_cons in Hi as [->|[(t' & [Hb|Hu] & Hi)|Hi]].
    + right; right; left. by eexists.
    + inversion Hb; subst. unfold on_destroy in Hi.
      apply warn_if_issued in Hi as [Hw _]; [|tauto].
      by apply warning_not_store_op in Hw.
    + inversion Hu.
    + by apply issued_nil in Hi.
  - apply issued_cons in Hi as [->|[(t' & [Hb|Hu] & _)|Hi]];
      [done|inversion Hb|inversion Hu|by apply issued_nil in Hi].
Qed.

Lemma justRun_store_ops self _cache hash err c :
  may_issue (_cacheNotAnOption_justRunMachine self _cache hash err) c ->
  is_store_op c -> pipeline_store_op self _cache c.
Proof.
  intros Hi Hs. unfold _cacheNotAnOption_justRunMachine in Hi.
  apply issued_app in Hi as [Hi|Hi].
  { apply warn_if_issued in Hi as [Hw _]; [|tauto].
    by apply warning_not_store_op in Hw. }
  assert (may_issue
            [RunFn (fn self) (ThisValue (_configuredContexts self))
               (_configuredInputs self)
               (switchback_of (interceptedExits self _cache hash))
               (_configuredContexts self)] c ->
          pipeline_store_op self _cache c) as Hrun.
  { intros Hi'.
    apply issued_cons in Hi' as [->|[(t' & [Hb|Hu] & Hi')|Hi']];
      [done|inversion Hb| |by apply issued_nil in Hi'].
    by eapply unit_store_ops. }
  destruct (truthy _cache) eqn:Hc; [|by apply Hrun].
  destruct (isFunction _).
  - apply issued_cons in Hi as [->|[(t' & [Hb|Hu] & Hi)|Hi]].
    + right; left. by eexists.
    + inversion Hb; subst. by eapply gc_store_ops.
    + inversion Hu.
    + by apply Hrun.
  - apply issued_cons in Hi as [->|[(t' & [Hb|Hu] & _)|Hi]];
      [done|inversion Hb|inversion Hu|by apply issued_nil in Hi].
Qed.

Lemma on_find_store_ops self _cache hash err cached c :
  may_issue (on_find self _cache hash err cached) c ->
  is_store_op c -> pipeline_store_op self _cache c.
Proof.
  unfold on_find. destruct (truthy err); [apply justRun_store_ops|].
  destruct cached as [|e rest]; [apply justRun_store_ops|].
  destruct (is_defined _); [|apply justRun_store_ops].
  intros Hi Hs. apply hit_never_runs_fn in Hi as [_ Hi]. done.
Qed.

Lemma on_hash_store_ops self _cache err h c :
  may_issue (on_hash self _cache err h) c ->
  is_store_op c -> pipeline_store_op self _cache c.
Proof.
  unfold on_hash. destruct (truthy err); [apply justRun_store_ops|].
  intros Hi Hs.
  apply issued_cons in Hi as [->|[(t' & [Hb|Hu] & Hi)|Hi]].
  - left. by eexists.
  - inversion Hb; subst. by eapply on_find_store_ops.
  - inversion Hu.
  - by apply issued_nil in Hi.
Qed.

(** Every store operation that a run may issue has one of the four forms. *)
Lemma exec_store_ops cfg now this c :
  may_issue (Machine_prototype_exec cfg now this).2 c -> is_store_op c ->
  pipeline_store_op (run_self cfg now this) (run_cache cfg now this) c.
Proof.
  unfold run_self, run_cache, Machine_prototype_exec. fold (prepared cfg this).
  cbn [fst snd]. unfold _tryCacheLookup.
  set (self := if cache_is_valid _ then _ else _).
  destruct (truthy (local_cache now (prepared cfg this))); cbn [negb].
  - intros Hi Hs.
    apply issued_cons in Hi as [->|[(t' & [Hb|Hu] & Hi)|Hi]].
    + done.
    + inversion Hb; subst. by eapply on_hash_store_ops.
    + inversion Hu.
    + by apply issued_nil in Hi.
  - apply justRun_store_ops.
Qed.
End OnlyStoreOperations.

(** ** Normalized settings *)

Section Normalization.
Context `{Externals}.

Lemma default_prop_get k v (props : gmap string value) :
  default VUndefined (default_prop k v props !! k) =
  if is_defined (default VUndefined (props !! k))
  then default VUndefined (props !! k) else v.
Proof.
  unfold default_prop. destruct (is_defined _) eqn:Hd; [done|].
  by rewrite lookup_insert_eq.
Qed.

Lemma apply_defaults_get (props : gmap string value) k :
  default VUndefined (apply_defaults props !! k) =
  let old := default VUndefined (props !! k) in
  if decide (k = "ttl") then
    if is_defined old then old else VNum (3 * 60 * 60 * 1000)
  else if decide (k = "maxOldEntriesBuffer") then
    if is_defined old then old else VNum 0
  else if decide (k = "exit") then
    if is_defined old then old else VStr "success"
  else old.
Proof.
  unfold apply_defaults. simpl.
  destruct (decide (k = "ttl")) as [->|Httl].
  { rewrite !default_prop_lookup_ne by done. apply default_prop_get. }
  destruct (decide (k = "maxOldEntriesBuffer")) as [->|Hbuf].
  { rewrite default_prop_lookup_ne by done.
    by rewrite default_prop_get, default_prop_lookup_ne by done. }
  destruct (decide (k = "exit")) as [->|Hexit].
  { by rewrite default_prop_get, !default_prop_lookup_ne by done. }
  by rewrite !default_prop_lookup_ne by done.
Qed.

Lemma normalize_get now a props k :
  get k (normalize now (VObj a props)) =
  if decide (k = "expirationDate") then
    expiration now (default VUndefined (apply_defaults props !! "ttl"))
  else default VUndefined (apply_defaults props !! k).
Proof.
  simpl. destruct (decide (k = "expirationDate")) as [->|Hne].
  - by rewrite lookup_insert_eq.
  - by rewrite lookup_insert_ne.
Qed.

Lemma enabled_settings_object cfg this :
  cache_enabled cfg this = true ->
  exists a props, _cacheSettings (prepared cfg this) = VObj a props.
Proof.
  unfold cache_enabled.
  intros (a & props & _ & _ & _ & _ & -> & _)%cache_is_valid_spec. eauto.
Qed.

Lemma run_cache_normalized cfg now this :
  cache_enabled cfg this = true ->
  run_cache cfg now this = normalize now (_cacheSettings (prepared cfg this)).
Proof. unfold run_cache, local_cache, cache_enabled. by intros ->. Qed.

Lemma run_cache_enabled cfg now this :
  truthy (run_cache cfg now this) = true -> cache_enabled cfg this = true.
Proof.
  unfold run_cache, local_cache, cache_enabled. by destruct (cache_is_valid _).
Qed.

(** X1. With caching enabled, the settings of a run keep every [ttl],
    [maxOldEntriesBuffer] and [exit] that is not [undefined] and take three
    hours, 0 and ['success'] for the others; every other property except
    [expirationDate] is as it was, and the settings object is the same
    object. *)
Theorem defaults_fill_only_missing_settings cfg now this :
  cache_enabled cfg this = true ->
  let old := _cacheSettings (prepared cfg this) in
  let _cache := run_cache cfg now this in
  get "ttl" _cache =
    (if is_defined (get "ttl" old) then get "ttl" old else VNum 10800000) /\
  get "maxOldEntriesBuffer" _cache =
    (if is_defined (get "maxOldEntriesBuffer" old)
     then get "maxOldEntriesBuffer" old else VNum 0) /\
  get "exit" _cache =
    (if is_defined (get "exit" old) then get "exit" old else VStr "success") /\
  (forall k, k <> "ttl" -> k <> "maxOldEntriesBuffer" -> k <> "exit" ->
             k <> "expirationDate" -> get k _cache = get k old) /\
  (exists a props props', old = VObj a props /\ _cache = VObj a props').
Proof.
  intros Hen old _cache. subst old _cache.
  rewrite (run_cache_normalized _ _ _ Hen).
  destruct (enabled_settings_object _ _ Hen) as (a & props & ->).
  split; [|split; [|split; [|split]]].
  - by rewrite !normalize_get, !apply_defaults_get.
  - by rewrite !normalize_get, !apply_defaults_get.
  - by rewrite !normalize_get, !apply_defaults_get.
  - intros k ? ? ? ?. rewrite normalize_get, decide_False by done.
    rewrite apply_defaults_get. cbv zeta. by rewrite !decide_False by done.
  - by eexists _, _, _.
Qed.

(** X2. The cutoff of a run is the date of the time of the run minus the
    [ttl] of its settings, whatever [expirationDate] the settings held
    before: the time [now - ttl] when that is within the range of dates, an
    Invalid Date when it is beyond the range or the [ttl] is not a number,
    and three hours back when no [ttl] was supplied. *)
Theorem cutoff_is_recomputed_from_ttl cfg now this :
  cache_enabled cfg this = true ->
  let old := _cacheSettings (prepared cfg this) in
  let _cache := run_cache cfg now this in
  (forall t, to_number (get "ttl" _cache) = Some t ->
             get "expirationDate" _cache =
               VDate (if Z.abs (now - t) <=? max_time then Some (now - t) else None)) /\
  (to_number (get "ttl" _cache) = None ->
   get "expirationDate" _cache = VDate None) /\
  (is_defined (get "ttl" old) = false ->
   get "expirationDate" _cache =
     VDate (if Z.abs (now - 10800000) <=? max_time
            then Some (now - 10800000) else None)).
Proof.
  intros Hen old _cache. subst old _cache.
  rewrite (run_cache_normalized _ _ _ Hen).
  destruct (enabled_settings_object _ _ Hen) as (a & props & ->).
  rewrite !normalize_get. simpl. unfold expiration, new_Date.
  repeat split.
  - by intros t ->.
  - by intros ->.
  - intros Hd. rewrite apply_defaults_get. simpl. by rewrite Hd.
Qed.

Lemma run_cache_defaults_defined cfg now this k :
  cache_enabled cfg this = true ->
  k = "ttl" \/ k = "maxOldEntriesBuffer" \/ k = "exit" ->
  is_defined (get k (run_cache cfg now this)) = true.
Proof.
  intros Hen Hk. rewrite (run_cache_normalized _ _ _ Hen).
  destruct (enabled_settings_object _ _ Hen) as (a & props & ->).
  rewrite normalize_get.
  destruct Hk as [-> | [-> | ->]]; rewrite decide_False by done;
    rewrite apply_defaults_get; simpl;
    by destruct (is_defined (default VUndefined (props !! _))) eqn:Hd.
Qed.

Lemma normalize_keeps_defined now a props k :
  k <> "expirationDate" ->
  (k = "ttl" \/ k = "maxOldEntriesBuffer" \/ k = "exit" ->
   is_defined (get k (VObj a props)) = true) ->
  get k (normalize now (VObj a props)) = get k (VObj a props).
Proof.
  intros Hk Hdef. rewrite normalize_get, decide_False by done.
  rewrite apply_defaults_get. cbv zeta. simpl in Hdef.
  repeat case_decide; try done; by rewrite Hdef by tauto.
Qed.

(** The settings of a later run, property by property. *)
Lemma later_run_settings cfg' now' cfg now this k :
  cache_enabled cfg this = true -> k <> "expirationDate" ->
  get k (run_cache cfg' now' (run_self cfg now this)) = get k (run_cache cfg now this).
Proof.
  intros Hen Hk.
  pose proof (enabled_stays_enabled cfg' cfg now this Hen) as Hen'.
  rewrite (run_cache_normalized _ _ _ Hen'), (next_settings _ _ _ _ Hen).
  pose proof (run_cache_defaults_defined cfg now this k Hen) as Hdef.
  assert (exists a props, run_cache cfg now this = VObj a props) as (a & props & Hc).
  { rewrite (run_cache_normalized _ _ _ Hen).
    destruct (enabled_settings_object _ _ Hen) as (a & props & ->).
    by eexists _, _. }
  rewrite Hc in *. by apply normalize_keeps_defined.
Qed.

(** X3. The settings that one run has normalized are the settings of every
    later run on the machine: apart from [expirationDate], a later run reads
    the same properties, at whatever time and with whatever exits it is
    called. *)
Theorem settings_persist_across_runs cfg' now' cfg now this k :
  cache_enabled cfg this = true ->
  k <> "expirationDate" ->
  cache_enabled cfg' (run_self cfg now this) = true /\
  get k (run_cache cfg' now' (run_self cfg now this)) = get k (run_cache cfg now this).
Proof.
  intros Hen Hk. split; [by apply enabled_stays_enabled|by apply later_run_settings].
Qed.

(** X4. An override that the caller passes in the reserved input does not
    end with the run: a property of a [_cache] object, merged into settings
    that are an object, is what a later run without any [_cache] input still
    reads. *)
Theorem override_outlives_the_run cfg' now' cfg now this a props b overrides k v :
  _cacheSettings this = VObj a props ->
  _configuredInputs this !! "_cache" = Some (VObj b overrides) ->
  overrides !! k = Some v ->
  is_defined v = true ->
  k <> "expirationDate" ->
  cache_enabled cfg this = true ->
  let next := run_self cfg now this in
  _configuredInputs next !! "_cache" = None /\
  get k (run_cache cfg now this) = v /\
  get k (run_cache cfg' now' next) = v.
Proof.
  intros Hs Hin Hk Hv Hne Hen next.
  destruct (prepared_inputs_consumed cfg this (VObj b overrides) Hin eq_refl)
    as [Hinputs Hsettings].
  assert (get k (run_cache cfg now this) = v) as Hget.
  { rewrite (run_cache_normalized _ _ _ Hen), Hsettings, Hs.
    change (extend (VObj a props) (VObj b overrides)) with (VObj a (overrides ∪ props)).
    assert ((overrides ∪ props) !! k = Some v) as Hl
      by by apply lookup_union_Some_l.
    rewrite normalize_keeps_defined; [|done|]; simpl; by rewrite Hl. }
  split; [|split; [done|]].
  - subst next. rewrite run_self_inputs, Hinputs. apply lookup_delete_eq.
  - subst next. by rewrite later_run_settings.
Qed.
End Normalization.

Lemma defaults_fill_only_missing_settings_witness :
  get "ttl" (run_cache (H := Sample.externals) VUndefined 1000 Sample.machine)
    = VNum 10800000 /\
  get "maxOldEntriesBuffer"
    (run_cache (H := Sample.externals) VUndefined 1000 Sample.machine) = VNum 1.
Proof.
  destruct (defaults_fill_only_missing_settings (H := Sample.externals)
              VUndefined 1000 Sample.machine eq_refl) as (Httl & Hbuf & _).
  split; [exact Httl|exact Hbuf].
Defined.

Lemma cutoff_is_recomputed_from_ttl_witness :
  get "expirationDate"
    (run_cache (H := Sample.externals) VUndefined 1000 Sample.machine)
  = VDate (Some (1000 - 10800000)) /\
  get "expirationDate"
    (run_cache (H := Sample.externals) VUndefined 1000 Demo.endless_machine)
  = VDate None.
Proof.
  split.
  - destruct (cutoff_is_recomputed_from_ttl (H := Sample.externals)
                VUndefined 1000 Sample.machine eq_refl) as (_ & _ & Hdefault).
    apply Hdefault. reflexivity.
  - destruct (cutoff_is_recomputed_from_ttl (H := Sample.externals)
                VUndefined 1000 Demo.endless_machine eq_refl) as (Hnum & _ & _).
    exact (Hnum 10000000000000000 eq_refl).
Defined.

Lemma settings_persist_across_runs_witness :
  get "maxOldEntriesBuffer"
    (run_cache (H := Sample.externals) VUndefined 2000
       (run_self (H := Sample.externals) VUndefined 1000 Sample.machine))
  = get "maxOldEntriesBuffer"
      (run_cache (H := Sample.externals) VUndefined 1000 Sample.machine).
Proof.
  apply (settings_persist_across_runs (H := Sample.externals)
           VUndefined 2000 VUndefined 1000 Sample.machine "maxOldEntriesBuffer");
    [reflexivity|discriminate].
Defined.

Lemma override_outlives_the_run_witness :
  get "ttl"
    (run_cache (H := Sample.externals) VUndefined 2000
       (run_self (H := Sample.externals) VUndefined 1000 Sample.overridden_machine))
  = VNum 60000.
Proof.
  apply (override_outlives_the_run (H := Sample.externals)
           VUndefined 2000 VUndefined 1000 Sample.overridden_machine
           20%positive _ 22%positive _ "ttl" (VNum 60000) eq_refl eq_refl);
    [reflexivity|reflexivity|discriminate|reflexivity].
Defined.

(** ** What a run writes and deletes *)

Section WritesAndDeletes.
Context `{Externals}.

Lemma run_cache_expiration cfg now this :
  cache_enabled cfg this = true ->
  exists t, get "expirationDate" (run_cache cfg now this) = VDate t.
Proof.
  intros Hen. rewrite (run_cache_normalized _ _ _ Hen).
  destruct (enabled_settings_object _ _ Hen) as (a & props & ->).
  rewrite normalize_get. unfold expiration, new_Date. by eexists.
Qed.

(** X5. Every [create] that a run may issue is the write of the intercepted
    exit: caching is enabled, the record carries a truthy hash, it goes to
    the [create] of the settings' model, and its callback ends in the
    configured exit of the name that the settings give, called with the
    data of the record.  No entry is written without a hash. *)
Theorem writes_carry_a_hash cfg now this callee r cb :
  may_issue (Machine_prototype_exec cfg now this).2 (ModelCreate callee r cb) ->
  cache_enabled cfg this = true /\
  truthy (new_hash r) = true /\
  callee = get "create" (get "model" (run_cache cfg now this)) /\
  exists x f,
    get "exit" (run_cache cfg now this) = VStr x /\
    _configuredExits (run_self cfg now this) !! x = Some f /\
    forall err, cb err = warn_if (run_self cfg now this) err ++ [CallExit f [new_data r]].
Proof.
  intros Hi. apply exec_store_ops in Hi; [|done].
  destruct Hi as [(h & ?)|[(hash & _ & ?)|[(hash & _ & ?)|Hi]]]; try done.
  destruct Hi as (hash & x & f & d & Hc & Hh & Hx & Hf & Heq). simplify_eq.
  split; [by apply (run_cache_enabled _ now)|]. repeat split; try done.
  by exists x, f.
Qed.

(** X6. Every [destroy] that a run may issue is restricted to entries
    created at or before the run's cutoff: on a store that follows the
    criteria, an entry created after the cutoff survives it, and so does
    every entry when the cutoff is an Invalid Date. *)
Theorem collector_spares_fresh_entries cfg now this callee c cb (s : list entry) e :
  may_issue (Machine_prototype_exec cfg now this).2 (ModelDestroy callee c cb) ->
  e ∈ s ->
  (forall cutoff,
      get "expirationDate" (run_cache cfg now this) = VDate (Some cutoff) ->
      cutoff < entry_createdAt e) ->
  where_createdAt c = (LE, get "expirationDate" (run_cache cfg now this)) /\
  crit_skip c = Some (get "maxOldEntriesBuffer" (run_cache cfg now this)) /\
  e ∈ Store.destroy c s.
Proof.
  intros Hi Hin Hfresh. apply exec_store_ops in Hi; [|done].
  destruct Hi as [(h & ?)|[(hash & _ & ?)|[(hash & Hc & Heq)|Hi]]]; try done;
    [|by destruct Hi as (? & ? & ? & ? & _ & _ & _ & _ & ?)].
  simplify_eq. split; [done|]. split; [done|].
  unfold Store.destroy. apply elem_of_app. left.
  apply list_elem_of_filter. split; [|done].
  rewrite matches_spec. simpl. intros [_ (cutoff & Ht & Hle)].
  pose proof (run_cache_enabled _ _ _ Hc) as Hen.
  destruct (run_cache_expiration cfg now this Hen) as [t Hexp].
  rewrite Hexp in Ht, Hfresh. simpl in Ht. subst t.
  specialize (Hfresh cutoff eq_refl). lia.
Qed.
End WritesAndDeletes.

(** ** Turns that a run can reach *)

Section Reachable.
Context `{Externals}.

(** A miss, after a hash [h] and an empty reply to the lookup. *)
Lemma miss_is_reachable cfg now this h c :
  cache_enabled cfg this = true ->
  may_issue
    (_cacheNotAnOption_justRunMachine (run_self cfg now this)
       (run_cache cfg now this) h VUndefined) c ->
  may_issue (Machine_prototype_exec cfg now this).2 c.
Proof.
  intros Hen Hi. rewrite (exec_enabled _ _ _ Hen). cbn [snd].
  eapply issued_later;
    [apply list_elem_of_here|left; apply (back_hash _ _ VNull h)|].
  unfold on_hash. simpl truthy. cbv iota.
  eapply issued_later;
    [apply list_elem_of_here|left; apply (back_find _ _ _ VNull [])|].
  done.
Qed.

(** The collector's [destroy], after a count above the buffer. *)
Lemma destroy_is_reachable cfg now this h n :
  cache_enabled cfg this = true ->
  store_complete (run_cache cfg now this) = true ->
  js_gt n (get "maxOldEntriesBuffer" (run_cache cfg now this)) = true ->
  may_issue (Machine_prototype_exec cfg now this).2
    (ModelDestroy (get "destroy" (get "model" (run_cache cfg now this)))
       (gc_destroy_criteria (run_cache cfg now this) h)
       (on_destroy (run_self cfg now this))).
Proof.
  intros Hen Hcomplete Hgt. apply andb_prop in Hcomplete as [Hcount Hdestroy].
  apply (miss_is_reachable _ _ _ h); [done|].
  rewrite gc_not_awaited; [|by apply run_cache_truthy|done].
  rewrite warn_if_falsy by done. simpl.
  eapply issued_later;
    [apply list_elem_of_here|left; apply (back_count _ _ _ VNull n)|].
  unfold on_count. rewrite Hgt, Hdestroy, warn_if_falsy by done.
  apply issued_here, list_elem_of_here.
Qed.

(** The write of the cacheable exit, once the unit calls it with [d]. *)
Lemma write_is_reachable cfg now this h x f d :
  cache_enabled cfg this = true ->
  isFunction (get "count" (get "model" (run_cache cfg now this))) = true ->
  truthy h = true ->
  get "exit" (run_cache cfg now this) = VStr x ->
  _configuredExits (run_self cfg now this) !! x = Some f ->
  may_issue (Machine_prototype_exec cfg now this).2
    (ModelCreate (get "create" (get "model" (run_cache cfg now this)))
       {| new_hash := h; new_data := d |}
       (fun err => warn_if (run_self cfg now this) err ++ [CallExit f [d]])).
Proof.
  intros Hen Hcount Hh Hx Hf.
  apply (miss_is_reachable _ _ _ h); [done|].
  pose proof (run_cache_truthy _ now _ Hen) as Hc.
  rewrite gc_not_awaited by done. rewrite warn_if_falsy by done. simpl.
  eapply issued_later.
  - apply list_elem_of_further, list_elem_of_here.
  - right. unfold the_run.
    apply (uses_handler _ _ _ _ _ x
             (Case (CacheThenForward (run_self cfg now this) (run_cache cfg now this) h f))
             [d]).
    by rewrite switchback_of_lookup, (interceptedExits_cacheable _ _ _ _ _ Hc Hh Hx Hf).
  - apply issued_here, list_elem_of_here.
Qed.
End Reachable.

Lemma writes_carry_a_hash_witness :
  cache_enabled (H := Sample.externals) VUndefined Sample.machine = true /\
  truthy (VStr "h1") = true.
Proof.
  destruct (writes_carry_a_hash (H := Sample.externals) VUndefined 1000 Sample.machine
              _ _ _
              (write_is_reachable (H := Sample.externals) VUndefined 1000 Sample.machine
                 (VStr "h1") "success" (VFun 2) Sample.result
                 eq_refl eq_refl eq_refl eq_refl eq_refl))
    as (Hen & Hh & _).
  split; [exact Hen|exact Hh].
Defined.

Lemma collector_spares_fresh_entries_witness :
  Sample.fresh_entry ∈
    Store.destroy
      (gc_destroy_criteria
         (run_cache (H := Sample.externals) VUndefined 1000 Sample.machine) (VStr "h1"))
      (Sample.fresh_entry :: Sample.old_entries).
Proof.
  apply (collector_spares_fresh_entries (H := Sample.externals)
           VUndefined 1000 Sample.machine _ _ _
           (Sample.fresh_entry :: Sample.old_entries) Sample.fresh_entry
           (destroy_is_reachable (H := Sample.externals) VUndefined 1000 Sample.machine
              (VStr "h1") (Some 3) eq_refl eq_refl eq_refl)).
  - apply list_elem_of_here.
  - intros cutoff [= <-]. reflexivity.
Defined.

(** ** Exits that are not intercepted *)

Section PassThrough.
Context `{Externals}.

(** X7. The exit table that [exec] builds, before node-switchback wraps
    it, has the names of the configured exits, no more and no fewer; the
    switchback that [fn] receives has the functions of that table and no
    other exit function, what else it has being the library's own; and on
    it every configured exit but the one that the settings name goes to the
    configured function with all its arguments and issues nothing else: no
    store operation comes from such an exit. *)
Theorem other_exits_pass_through self _cache hash name f args :
  _configuredExits self !! name = Some f ->
  strict_neq_name name (get "exit" _cache) = true ->
  let exits := switchback_of (interceptedExits self _cache hash) in
  dom (interceptedExits self _cache hash) = dom (_configuredExits self) /\
  (forall k h, exits !! k = Some (Case h) <->
               interceptedExits self _cache hash !! k = Some h) /\
  (forall k, _configuredExits self !! k = None ->
             exits !! k = library_members !! k) /\
  invoke_named exits name args = [CallExit f args] /\
  (forall c, may_issue (invoke_named exits name args) c -> c = CallExit f args).
Proof.
  intros Hf Hne exits. subst exits.
  assert (interceptedExits self _cache hash !! name = Some (Configured f)) as Hl.
  { rewrite interceptedExits_lookup, Hf, Hne. simpl. by rewrite orb_true_r. }
  split; [|split; [|split; [|split]]].
  - apply set_eq. intros k. rewrite !elem_of_dom, interceptedExits_lookup.
    by rewrite fmap_is_Some.
  - intros k h. rewrite switchback_of_lookup.
    destruct (interceptedExits self _cache hash !! k) as [h'|] eqn:Hk.
    + split; intros [= ->]; done.
    + split; [|done]. intros Hm. by apply library_members_spec in Hm as [?|[?|?]].
  - intros k Hk. rewrite switchback_of_lookup, interceptedExits_lookup. by rewrite Hk.
  - by rewrite (invoke_named_case _ _ _ _ Hl).
  - intros c. rewrite (invoke_named_case _ _ _ _ Hl). simpl. intros Hi.
    apply issued_cons in Hi as [->|[(t' & [Hb|Hu] & _)|Hi]];
      [done|inversion Hb|inversion Hu|by apply issued_nil in Hi].
Qed.

(** X8. The intercepted exit hands the configured exit its first argument
    only: whatever arguments the unit calls the cacheable exit with, and
    whether the write succeeds or not, every call of an exit that follows
    is the configured one with exactly the first argument ([undefined] when
    there is none). *)
Theorem cacheable_exit_forwards_first_argument_only self _cache hash x f args g a :
  truthy _cache = true ->
  truthy hash = true ->
  get "exit" _cache = VStr x ->
  _configuredExits self !! x = Some f ->
  may_issue (invoke_named (switchback_of (interceptedExits self _cache hash)) x args)
            (CallExit g a) ->
  g = f /\ a = [hd VUndefined args].
Proof.
  intros Hc Hh Hx Hf.
  rewrite (invoke_named_case _ _ _ _ (interceptedExits_cacheable _ _ _ _ _ Hc Hh Hx Hf)).
  simpl. intros Hi.
  apply issued_cons in Hi as [?|[(t' & [Hb|Hu] & Hi)|Hi]];
    [done| |inversion Hu|by apply issued_nil in Hi].
  inversion Hb; subst.
  apply issued_app in Hi as [Hi|Hi].
  - by apply warn_if_issued in Hi as [? _]; [|tauto].
  - apply issued_cons in Hi as [?|[(t' & [Hb'|Hu'] & _)|Hi]];
      [by simplify_eq|inversion Hb'|inversion Hu'|by apply issued_nil in Hi].
Qed.

(** X9. When the exit that the settings name is not among the configured
    exits, or the name is not a string, a run with caching enabled looks up
    and collects but never writes: no [create] can be issued. *)
Theorem unknown_cacheable_exit_never_writes cfg now this callee r cb :
  (forall x, get "exit" (run_cache cfg now this) = VStr x ->
             _configuredExits (run_self cfg now this) !! x = None) ->
  ~ may_issue (Machine_prototype_exec cfg now this).2 (ModelCreate callee r cb).
Proof.
  intros Hnone Hi. apply exec_store_ops in Hi; [|done].
  destruct Hi as [(h & ?)|[(hash & _ & ?)|[(hash & _ & ?)|Hi]]]; try done.
  destruct Hi as (hash & x & f & d & _ & _ & Hx & Hf & _).
  by rewrite (Hnone _ Hx) in Hf.
Qed.
End PassThrough.

Lemma other_exits_pass_through_witness :
  invoke_named
    (switchback_of
       (interceptedExits (run_self (H := Sample.externals) VUndefined 1000 Sample.machine)
          (run_cache (H := Sample.externals) VUndefined 1000 Sample.machine) (VStr "h1")))
    "notFound" [VNum 1; VNum 2]
  = [CallExit (VFun 4) [VNum 1; VNum 2]].
Proof.
  apply (other_exits_pass_through
           (run_self (H := Sample.externals) VUndefined 1000 Sample.machine)
           (run_cache (H := Sample.externals) VUndefined 1000 Sample.machine)
           (VStr "h1") "notFound" (VFun 4) [VNum 1; VNum 2]); reflexivity.
Defined.

Lemma cacheable_exit_forwards_first_argument_only_witness :
  VFun 2 = VFun 2 /\ [Sample.result] = [hd VUndefined [Sample.result; VNum 1]].
Proof.
  apply (cacheable_exit_forwards_first_argument_only
           (run_self (H := Sample.externals) VUndefined 1000 Sample.machine)
           (run_cache (H := Sample.externals) VUndefined 1000 Sample.machine)
           (VStr "h1") "success" (VFun 2) [Sample.result; VNum 1]);
    try reflexivity.
  eapply issued_later.
  - apply list_elem_of_here.
  - left. apply (back_create _ _ _ VNull).
  - apply issued_here, list_elem_of_here.
Defined.

Lemma unknown_cacheable_exit_never_writes_witness :
  ~ may_issue
      (Machine_prototype_exec (H := Sample.externals) VUndefined 1000
         Demo.misnamed_machine).2
      (ModelCreate (VFun 12) {| new_hash := VStr "h1"; new_data := Sample.result |}
         (fun _ => [])).
Proof.
  apply (unknown_cacheable_exit_never_writes (H := Sample.externals)).
  intros x Hx. change (VStr "done" = VStr x) in Hx.
  injection Hx as <-. reflexivity.
Defined.

(** ** Runs in which nothing fails *)

Section Quiet.
Context `{Externals}.

Local Ltac walk Hi :=
  apply issued_cons in Hi as [->|[(?t' & [?Hb|?Hu] & Hi)|Hi]].

Lemma quiet_leaves t c :
  Forall is_leaf t -> (forall c', c' ∈ t -> ~ is_warning c') ->
  issues_without_errors t c -> ~ is_warning c.
Proof.
  intros Hl Hno Hi. apply Hno.
  eapply issued_leaves; [|done|done].
  intros c0 t' [Hb|Hu]; [left; by apply ok_is_callback|by right].
Qed.

Lemma quiet_handler h args c :
  issues_without_errors (invoke_handler h args) c -> ~ is_warning c.
Proof.
  destruct h as [f|self _cache hash f]; simpl; intros Hi.
  - walk Hi; [simpl; tauto|inversion Hb|inversion Hu|by apply issued_nil in Hi].
  - walk Hi; [simpl; tauto| |inversion Hu|by apply issued_nil in Hi].
    inversion Hb as [| | | |? ? ? ? Herr]; subst.
    rewrite warn_if_falsy in Hi by done. simpl in Hi.
    walk Hi; [simpl; tauto|inversion Hb0|inversion Hu|by apply issued_nil in Hi].
Qed.

Lemma quiet_member m args c :
  issues_without_errors (invoke_member m args) c -> ~ is_warning c.
Proof.
  destruct m as [h|name| |]; [apply quiet_handler|..]; simpl; intros Hi.
  - walk Hi; [simpl; tauto|inversion Hb|inversion Hu|by apply issued_nil in Hi].
  - walk Hi; [simpl; tauto|inversion Hb|inversion Hu|by apply issued_nil in Hi].
  - by apply issued_nil in Hi.
Qed.

Lemma quiet_named hs name args c :
  issues_without_errors (invoke_named hs name args) c -> ~ is_warning c.
Proof.
  unfold invoke_named. destruct (hs !! name); [apply quiet_member|].
  intros Hi. walk Hi; [simpl; tauto|inversion Hb|inversion Hu|by apply issued_nil in Hi].
Qed.

Lemma quiet_unit c0 t c :
  unit_uses c0 t -> issues_without_errors t c -> ~ is_warning c.
Proof.
  destruct 1; [apply quiet_member|].
  unfold switchback_apply. destruct (truthy _); apply quiet_named.
Qed.

Lemma quiet_collector self _cache hash err n c :
  truthy err = false ->
  issues_without_errors (on_count self _cache hash err n) c -> ~ is_warning c.
Proof.
  intros He Hi. unfold on_count in Hi. rewrite warn_if_falsy in Hi by done.
  simpl in Hi. destruct (js_gt n _); [|by apply issued_nil in Hi].
  destruct (isFunction _).
  - walk Hi; [simpl; tauto| |inversion Hu|by apply issued_nil in Hi].
    inversion Hb as [| | |? ? ? ? Herr|]; subst.
    unfold on_destroy in Hi. rewrite warn_if_falsy in Hi by done.
    by apply issued_nil in Hi.
  - walk Hi; [simpl; tauto|inversion Hb|inversion Hu|by apply issued_nil in Hi].
Qed.

Lemma quiet_justRun self _cache hash err c :
  truthy err = false ->
  issues_without_errors (_cacheNotAnOption_justRunMachine self _cache hash err) c ->
  ~ is_warning c.
Proof.
  intros He Hi. unfold _cacheNotAnOption_justRunMachine in Hi.
  rewrite warn_if_falsy in Hi by done. simpl in Hi.
  destruct (truthy _cache); [destruct (isFunction _)|].
  - walk Hi; [simpl; tauto| |inversion Hu|].
    + inversion Hb as [| |? ? ? ? ? Herr| |]; subst. by eapply quiet_collector.
    + walk Hi; [simpl; tauto|inversion Hb|by eapply quiet_unit|by apply issued_nil in Hi].
  - walk Hi; [simpl; tauto|inversion Hb|inversion Hu|by apply issued_nil in Hi].
  - walk Hi; [simpl; tauto|inversion Hb|by eapply quiet_unit|by apply issued_nil in Hi].
Qed.

Lemma quiet_on_find self _cache hash err cached c :
  truthy err = false ->
  issues_without_errors (on_find self _cache hash err cached) c -> ~ is_warning c.
Proof.
  intros He. unfold on_find. rewrite He.
  destruct cached as [|e rest]; [by apply quiet_justRun|].
  destruct (is_defined _); [|by apply quiet_justRun].
  unfold switchback_apply. simpl. apply quiet_named.
Qed.

(** X10. A run in which neither the hash function nor any store operation
    reports an error never warns: neither [onWarn] nor [console.error] is
    called, whatever the replies are otherwise and whatever the unit does
    with its exits. *)
Theorem no_warning_without_an_error cfg now this c :
  issues_without_errors (Machine_prototype_exec cfg now this).2 c -> ~ is_warning c.
Proof.
  unfold Machine_prototype_exec. cbn [snd]. unfold _tryCacheLookup.
  destruct (truthy (local_cache _ _)); cbn [negb].
  - intros Hi. walk Hi; [simpl; tauto| |inversion Hu|by apply issued_nil in Hi].
    inversion Hb as [? ? ? ? Herr| | | |]; subst.
    unfold on_hash in Hi. rewrite Herr in Hi.
    walk Hi; [simpl; tauto| |inversion Hu|by apply issued_nil in Hi].
    inversion Hb0 as [|? ? ? ? ? Herr'| | |]; subst.
    by eapply quiet_on_find.
  - by apply quiet_justRun.
Qed.
End Quiet.

Lemma no_warning_without_an_error_witness :
  exists c,
    issues_without_errors
      (Machine_prototype_exec (H := Sample.externals) VUndefined 2000 Sample.machine).2 c /\
    ~ is_warning c.
Proof.
  assert (cache_enabled (H := Sample.externals) VUndefined Sample.machine = true)
    as He by reflexivity.
  pose proof (exec_enabled (H := Sample.externals) VUndefined 2000 Sample.machine He)
    as Hexec.
  eexists. split.
  - rewrite Hexec. apply issued_here, list_elem_of_here.
  - apply (no_warning_without_an_error (H := Sample.externals) VUndefined 2000
             Sample.machine).
    rewrite Hexec. apply issued_here, list_elem_of_here.
Defined.

(** ** The two [exec] functions *)

Section TwoExecs.
Context `{Externals}.

(** X11. The [exec] of lib/Machine.js knows nothing of the cache: even on a
    machine with valid cache settings it issues no store operation, it
    changes nothing of the machine but the exits it is given, and [fn]
    receives the inputs as they are, the reserved [_cache] key included. *)
Theorem plain_exec_ignores_the_cache cfg this :
  (forall c, may_issue (exec cfg this).2 c -> ~ is_store_op c) /\
  _cacheSettings (exec cfg this).1 = _cacheSettings this /\
  _configuredInputs (exec cfg this).1 = _configuredInputs this /\
  (truthy cfg = false -> (exec cfg this).1 = this) /\
  (exec cfg this).2 =
    [RunFn (fn this) (ThisMachine (exec cfg this).1) (_configuredInputs this)
       (switchback (_configuredExits (exec cfg this).1)) (_dependencies this)].
Proof.
  unfold exec. cbn [fst snd]. split; [|split; [|split; [|split]]].
  - intros c. apply plain_run_no_store_op.
  - by destruct (truthy cfg).
  - by destruct (truthy cfg).
  - by intros ->.
  - by destruct (truthy cfg).
Qed.

(** X12. With caching disabled and no truthy [_cache] input, the two
    [exec] functions leave the same machine and run [fn] once with the same
    inputs and the same exit table; they differ in what [fn] is applied to
    and in its third argument: the machine and its dependencies for one,
    [_configuredContexts] twice for the other. *)
Theorem execs_agree_without_cache cfg now this :
  cache_enabled cfg this = false ->
  truthy (default VUndefined (_configuredInputs this !! "_cache")) = false ->
  (Machine_prototype_exec cfg now this).1 = (exec cfg this).1 /\
  exists m inputs exits,
    (exec cfg this).2 =
      [RunFn (fn this) (ThisMachine m) inputs exits (_dependencies this)] /\
    (Machine_prototype_exec cfg now this).2 =
      [RunFn (fn this) (ThisValue (_configuredContexts this)) inputs exits
         (_configuredContexts this)].
Proof.
  intros Hoff Hc. rewrite (exec_disabled _ _ _ Hoff). cbn [fst snd].
  assert (prepared cfg this = (exec cfg this).1) as Hp.
  { unfold prepared, exec, consume_cache_input. cbn [fst].
    assert (_configuredInputs (if truthy cfg then setExits this cfg else this)
            = _configuredInputs this) as -> by by destruct (truthy cfg).
    by rewrite Hc. }
  split; [done|]. rewrite Hp. unfold exec. cbn [fst snd].
  destruct (truthy cfg); by eexists _, _, _.
Qed.

(** X13. Whatever the settings and the replies, the caching [exec] leaves
    [fn], the dependencies, [_configuredContexts] and [onWarn] of the machine
    as they were, changes the exits only by the exits it is given, and
    changes the inputs at most by deleting the [_cache] key. *)
Theorem exec_keeps_the_rest_of_the_machine cfg now this :
  let self := run_self cfg now this in
  fn self = fn this /\
  _dependencies self = _dependencies this /\
  _configuredContexts self = _configuredContexts this /\
  onWarn self = onWarn this /\
  _configuredExits self =
    _configuredExits (if truthy cfg then setExits this cfg else this) /\
  (forall k, k <> "_cache" -> _configuredInputs self !! k = _configuredInputs this !! k) /\
  (_configuredInputs self = _configuredInputs this \/
   _configuredInputs self = delete "_cache" (_configuredInputs this)).
Proof.
  intros self. subst self.
  split; [apply run_self_fn|].
  unfold run_self, Machine_prototype_exec, consume_cache_input. cbn [fst].
  assert (_configuredInputs (if truthy cfg then setExits this cfg else this)
          = _configuredInputs this) as Hin by by destruct (truthy cfg).
  rewrite Hin.
  destruct (cache_is_valid _),
           (truthy (default VUndefined (_configuredInputs this !! "_cache")));
    simpl; rewrite ?Hin;
    (repeat split; try (by destruct (truthy cfg)); eauto;
     intros k Hk; by rewrite ?lookup_delete_ne).
Qed.
End TwoExecs.

Lemma execs_agree_without_cache_witness :
  (Machine_prototype_exec (H := Sample.externals) VUndefined 1000 Sample.plain_machine).1
  = (exec (H := Sample.externals) VUndefined Sample.plain_machine).1.
Proof.
  apply (execs_agree_without_cache (H := Sample.externals)
           VUndefined 1000 Sample.plain_machine); reflexivity.
Defined.

(** ** Writing and looking up *)

Section RoundTrip.
Context `{Externals}.

(** On the reference store, the entry made from a record is what a lookup
    for its hash finds, when the cutoff is before its creation and the
    other entries of the hash are older. *)
Lemma find_after_create h d t cutoff (s : list entry) :
  Store.strict_eq h h ->
  cutoff < t ->
  (forall e, e ∈ s -> Store.strict_eq h (entry_hash e) -> entry_createdAt e < t) ->
  Store.find
    (buildFindCriteria {| opt_hash := h; opt_expirationDate := VDate (Some cutoff) |})
    (Store.create t {| new_hash := h; new_data := d |} s)
  = [{| entry_hash := h; entry_data := d; entry_createdAt := t |}].
Proof.
  intros Hh Hlt Holder.
  set (new := {| entry_hash := h; entry_data := d; entry_createdAt := t |}).
  set (c := buildFindCriteria _).
  assert (new ∈ Store.create t {| new_hash := h; new_data := d |} s) as Hin.
  { unfold Store.create. apply elem_of_app. right. apply list_elem_of_here. }
  destruct (find_newest c (Store.create t {| new_hash := h; new_data := d |} s)
              new "createdAt DESC") as (e' & Hf & Hin' & Hm & Hle);
    try done; [by apply find_criteria_matches|].
  rewrite Hf. f_equal.
  unfold Store.create in Hin'. apply elem_of_app in Hin' as [Hin'|Hin'].
  - apply find_criteria_matches in Hm as [Hm _].
    specialize (Holder _ Hin' Hm). simpl in Hle. lia.
  - by apply list_elem_of_singleton in Hin'.
Qed.

(** X14. What one run writes, a later run replays: after the unit has
    traversed the cacheable exit with data that are not [undefined], and the
    store has made an entry of the record at a time after the later run's
    cutoff, the lookup of the later run for the same hash is a hit that
    calls [success] with the same data, whatever older entries the store
    holds. *)
Theorem written_result_is_replayed self _cache h x f d t (s : list entry)
    self' _cache' cutoff err :
  truthy _cache = true ->
  truthy h = true ->
  Store.strict_eq h h ->
  get "exit" _cache = VStr x ->
  _configuredExits self !! x = Some f ->
  is_defined d = true ->
  get "expirationDate" _cache' = VDate (Some cutoff) ->
  cutoff < t ->
  (forall e, e ∈ s -> Store.strict_eq h (entry_hash e) -> entry_createdAt e < t) ->
  truthy err = false ->
  let r := {| new_hash := h; new_data := d |} in
  (exists cb,
      invoke_named (switchback_of (interceptedExits self _cache h)) x [d] =
      [ModelCreate (get "create" (get "model" _cache)) r cb]) /\
  on_find self' _cache' h err
    (Store.find
       (buildFindCriteria
          {| opt_hash := h; opt_expirationDate := get "expirationDate" _cache' |})
       (Store.create t r s))
  = invoke_named (switchback (_configuredExits self')) "success" [d].
Proof.
  intros Hc Hh Heq Hx Hf Hd Hcut Hlt Holder He r. split.
  - rewrite (invoke_named_case _ _ _ _
               (interceptedExits_cacheable _ _ _ _ _ Hc Hh Hx Hf)).
    simpl. eauto.
  - rewrite Hcut. subst r. rewrite find_after_create by done.
    by apply on_find_hit.
Qed.

(** X15. A cached [undefined] is never replayed and a cached [null] is: the
    entry that the store makes of a record without data is what the next
    lookup finds, yet the run is a miss and goes on to the collector and
    [fn]; with [null] as data the same lookup is a hit that calls [success]
    with [null]. *)
Theorem undefined_data_is_a_miss self _cache h t (s : list entry) cutoff err :
  Store.strict_eq h h ->
  get "expirationDate" _cache = VDate (Some cutoff) ->
  cutoff < t ->
  (forall e, e ∈ s -> Store.strict_eq h (entry_hash e) -> entry_createdAt e < t) ->
  truthy err = false ->
  let c := buildFindCriteria
             {| opt_hash := h; opt_expirationDate := get "expirationDate" _cache |} in
  Store.find c (Store.create t {| new_hash := h; new_data := VUndefined |} s)
    = [{| entry_hash := h; entry_data := VUndefined; entry_createdAt := t |}] /\
  on_find self _cache h err
    (Store.find c (Store.create t {| new_hash := h; new_data := VUndefined |} s))
    = _cacheNotAnOption_justRunMachine self _cache h VUndefined /\
  on_find self _cache h err
    (Store.find c (Store.create t {| new_hash := h; new_data := VNull |} s))
    = invoke_named (switchback (_configuredExits self)) "success" [VNull].
Proof.
  intros Heq Hcut Hlt Holder He c. subst c. rewrite Hcut.
  rewrite !find_after_create by done.
  split; [done|]. split.
  - unfold on_find. by rewrite He.
  - by apply on_find_hit.
Qed.
End RoundTrip.

Lemma written_result_is_replayed_witness :
  on_find (H := Sample.externals)
    (run_self (H := Sample.externals) VUndefined 2000 Sample.machine)
    (run_cache (H := Sample.externals) VUndefined 2000 Sample.machine)
    (VStr "h1") VNull
    (Store.find
       (buildFindCriteria
          {| opt_hash := VStr "h1";
             opt_expirationDate :=
               get "expirationDate"
                 (run_cache (H := Sample.externals) VUndefined 2000 Sample.machine) |})
       (Store.create 1000 {| new_hash := VStr "h1"; new_data := Sample.result |}
          Sample.old_entries))
  = invoke_named
      (switchback
         (_configuredExits (run_self (H := Sample.externals) VUndefined 2000 Sample.machine)))
      "success" [Sample.result].
Proof.
  apply (written_result_is_replayed (H := Sample.externals)
           (run_self (H := Sample.externals) VUndefined 1000 Sample.machine)
           (run_cache (H := Sample.externals) VUndefined 1000 Sample.machine)
           (VStr "h1") "success" (VFun 2) Sample.result 1000 Sample.old_entries
           (run_self (H := Sample.externals) VUndefined 2000 Sample.machine)
           (run_cache (H := Sample.externals) VUndefined 2000 Sample.machine)
           (2000 - 10800000) VNull); try reflexivity.
  intros e He _. unfold Sample.old_entries in He. elems; reflexivity.
Defined.

Lemma undefined_data_is_a_miss_witness :
  Store.find
    (buildFindCriteria
       {| opt_hash := VStr "h1";
          opt_expirationDate :=
            get "expirationDate"
              (run_cache (H := Sample.externals) VUndefined 2000 Sample.machine) |})
    (Store.create 1000 {| new_hash := VStr "h1"; new_data := VUndefined |} [])
  = [{| entry_hash := VStr "h1"; entry_data := VUndefined; entry_createdAt := 1000 |}].
Proof.
  apply (undefined_data_is_a_miss (H := Sample.externals)
           (run_self (H := Sample.externals) VUndefined 2000 Sample.machine)
           (run_cache (H := Sample.externals) VUndefined 2000 Sample.machine)
           (VStr "h1") 1000 [] (2000 - 10800000) VNull); try reflexivity.
  intros e He. elems.
Defined.

(** ** Configuring a machine *)

Section Configuring.
Context `{Externals} {L : Lodash}.

(** X16. Inputs are merged key by key: after [setInputs], a key of the clone
    of the new inputs has the clone's value and every other key has the
    value it had; so of two calls the later one wins where both give a key,
    and setting the same inputs twice is setting them once.  Nothing but
    the inputs changes. *)
Theorem later_inputs_win this inputs1 inputs2 b1 q1 b2 q2 k :
  cloneDeep inputs1 = VObj b1 q1 ->
  cloneDeep inputs2 = VObj b2 q2 ->
  _configuredInputs (setInputs (setInputs this inputs1) inputs2) !! k =
    match q2 !! k with
    | Some v => Some v
    | None => match q1 !! k with
              | Some v => Some v
              | None => _configuredInputs this !! k
              end
    end /\
  setInputs (setInputs this inputs1) inputs1 = setInputs this inputs1 /\
  set_configuredInputs (_configuredInputs this) (setInputs this inputs1) = this.
Proof.
  intros H1 H2. unfold setInputs. simpl. rewrite H1, H2. simpl.
  split; [|split].
  - rewrite !lookup_union. by destruct (q2 !! k), (q1 !! k), (_configuredInputs this !! k).
  - unfold set_configuredInputs. simpl. f_equal.
    by rewrite (assoc_L (∪)), (idemp_L (∪)).
  - by destruct this.
Qed.

(** X17. [configure] is [setExits] for a truthy second argument and
    [setInputs] for a truthy first one, in either order, and nothing for
    falsy arguments; and [exec] with exits is [exec] without them on the
    machine that [configure] has given the exits. *)
Theorem configure_composes configuredInputs configuredExits now this :
  configure configuredInputs configuredExits this =
    configure configuredInputs VUndefined (configure VUndefined configuredExits this) /\
  configure configuredInputs configuredExits this =
    configure VUndefined configuredExits (configure configuredInputs VUndefined this) /\
  configure VUndefined VUndefined this = this /\
  _configuredExits (configure configuredInputs configuredExits this) =
    _configuredExits (if truthy configuredExits
                      then setExits this configuredExits else this) /\
  _configuredInputs (configure configuredInputs configuredExits this) =
    _configuredInputs (if truthy configuredInputs
                       then setInputs this configuredInputs else this) /\
  Machine_prototype_exec configuredExits now this =
    Machine_prototype_exec VUndefined now (configure VUndefined configuredExits this) /\
  exec configuredExits this =
    exec VUndefined (configure VUndefined configuredExits this).
Proof.
  unfold configure, Machine_prototype_exec, exec. simpl.
  destruct (truthy configuredInputs), (truthy configuredExits); done.
Qed.
End Configuring.

Lemma later_inputs_win_witness :
  _configuredInputs
    (setInputs (L := Demo.lodash)
       (setInputs (L := Demo.lodash) Sample.machine
          (VObj 40 {[ "x" := VNum 8 ]}))
       (VObj 41 {[ "y" := VNum 9 ]})) !! "x"
  = Some (VNum 8).
Proof.
  destruct (later_inputs_win (L := Demo.lodash) Sample.machine
              (VObj 40 {[ "x" := VNum 8 ]}) (VObj 41 {[ "y" := VNum 9 ]})
              40%positive _ 41%positive _ "x" eq_refl eq_refl) as [Hl _].
  rewrite Hl. reflexivity.
Defined.

(** ** Constructing a machine *)

Section Constructor.

Lemma resolvable_dec c (dep : string * value) :
  resolvable c dep \/ (dep.1 <> "node-machine" /\ ctx_require c dep.1 = None).
Proof.
  unfold resolvable. destruct (decide (dep.1 = "node-machine")); [by left; left|].
  destruct (ctx_require c dep.1); [left; right; by eexists|by right].
Qed.

(** One step of the loop on a dependency that resolves. *)
Lemma require_resolvable c clone oe mn name v deps loaded :
  resolvable c (name, v) ->
  require_dependencies (Some c) clone oe mn ((name, v) :: deps) loaded =
  require_dependencies (Some c) clone oe mn deps (<[name := resolved c clone name]> loaded).
Proof.
  unfold resolvable, resolved. simpl. intros [->|[m Hm]]; [done|].
  destruct (String.eqb name "node-machine") eqn:Hn; [done|]. by rewrite Hm.
Qed.

(** The loop over dependencies that all resolve. *)
Lemma require_all c clone oe mn deps loaded :
  Forall (resolvable c) deps ->
  exists loaded',
    require_dependencies (Some c) clone oe mn deps loaded = (loaded', None) /\
    forall k, loaded' !! k =
              if decide (k ∈ deps.*1) then Some (resolved c clone k) else loaded !! k.
Proof.
  intros Hall. revert loaded.
  induction Hall as [|[name v] deps Hx _ IH]; intros loaded.
  - exists loaded. split; [done|]. intros k. by rewrite decide_False by set_solver.
  - rewrite require_resolvable by done.
    destruct (IH (<[name := resolved c clone name]> loaded)) as (loaded' & -> & Hl).
    exists loaded'. split; [done|]. intros k. rewrite Hl. simpl.
    destruct (decide (k ∈ deps.*1)) as [Hin|Hin].
    + by rewrite decide_True by (by apply list_elem_of_further).
    + destruct (decide (k = name)) as [->|Hne].
      * rewrite decide_True by apply list_elem_of_here. by rewrite lookup_insert_eq.
      * rewrite decide_False by (by intros [?|?]%elem_of_cons).
        by rewrite lookup_insert_ne.
Qed.

(** The loop up to the first dependency that does not resolve. *)
Lemma require_until_failure c clone oe mn pre name v post loaded :
  Forall (resolvable c) pre ->
  name <> "node-machine" -> ctx_require c name = None ->
  exists loaded',
    require_dependencies (Some c) clone oe mn (pre ++ (name, v) :: post) loaded =
      (loaded', Some (error oe (CannotFind name mn))) /\
    forall k, loaded' !! k =
              if decide (k ∈ pre.*1) then Some (resolved c clone k) else loaded !! k.
Proof.
  intros Hall Hn Hreq. revert loaded.
  induction Hall as [|[name' v'] pre Hx _ IH]; intros loaded.
  - exists loaded. apply String.eqb_neq in Hn.
    split; [simpl; by rewrite Hn, Hreq|].
    intros k. by rewrite decide_False by set_solver.
  - rewrite <- app_comm_cons, require_resolvable by done.
    destruct (IH (<[name' := resolved c clone name']> loaded)) as (loaded' & -> & Hl).
    exists loaded'. split; [done|]. intros k. rewrite Hl. simpl.
    destruct (decide (k ∈ pre.*1)) as [Hin|Hin].
    + by rewrite decide_True by (by apply list_elem_of_further).
    + destruct (decide (k = name')) as [->|Hne].
      * rewrite decide_True by apply list_elem_of_here. by rewrite lookup_insert_eq.
      * rewrite decide_False by (by intros [?|?]%elem_of_cons).
        by rewrite lookup_insert_ne.
Qed.

(** The loop ends without an error exactly when there is nothing to load or
    everything resolves from a context. *)
Lemma require_succeeds_iff ctx clone oe mn deps loaded :
  (exists loaded', require_dependencies ctx clone oe mn deps loaded = (loaded', None)) <->
  deps = [] \/ exists c, ctx = Some c /\ Forall (resolvable c) deps.
Proof.
  split.
  - revert loaded. induction deps as [|[name v] deps IH]; intros loaded; [by left|].
    intros [loaded' Hr]. right. destruct ctx as [c|]; [|done].
    exists c. split; [done|].
    destruct (resolvable_dec c (name, v)) as [Hres|[Hn Hreq]].
    + rewrite require_resolvable in Hr by done.
      constructor; [done|].
      destruct (IH _ (ex_intro _ loaded' Hr)) as [->|(c' & [= <-] & Hall)]; [done|done].
    + simpl in *. apply String.eqb_neq in Hn. by rewrite Hn, Hreq in Hr.
  - intros [->|(c & -> & Hall)]; [by eexists|].
    destruct (require_all c clone oe mn deps loaded Hall) as (loaded' & Hr & _).
    by eexists.
Qed.

(** X18. [new Machine(definition, context)] gives a machine, and reports
    no error, exactly when the definition is an object with a truthy [fn]
    and either has no dependencies or has a context, given or found, from
    which every dependency other than ['node-machine'] can be required. *)
Theorem constructor_succeeds_iff env machineDefinition dependenciesModuleContext :
  (exists this,
      Machine_constructor env machineDefinition dependenciesModuleContext
      = Constructs this None) <->
  exists d,
    machineDefinition = Definition_ d /\
    truthy (def_fn d) = true /\
    (default [] (def_dependencies d) = [] \/
     exists c, chosen_context env d dependenciesModuleContext = Some c /\
               Forall (resolvable c) (default [] (def_dependencies d))).
Proof.
  unfold Machine_constructor. fold (chosen_context env).
  destruct machineDefinition as [v|d].
  { split; [|by intros (? & ? & _)]. by destruct (truthy v); intros [? ?]. }
  fold (chosen_context env d dependenciesModuleContext).
  destruct (truthy (def_fn d)) eqn:Hfn; simpl;
    [|split; [by intros [? ?]|by intros (? & [= <-] & ? & _); congruence]].
  destruct (require_dependencies _ _ _ _ _ _) as [loaded r] eqn:Hr.
  split.
  - intros [this Hc]. exists d. split; [done|]. split; [done|].
    apply (require_succeeds_iff _ (machine_clone env) (def_onError d)
             (def_moduleName d) _ ∅).
    destruct r as [[err|handler err]|]; try done. by eexists.
  - intros (d' & [= <-] & _ & Hok).
    apply (require_succeeds_iff _ (machine_clone env) (def_onError d)
             (def_moduleName d) _ ∅) in Hok as [loaded' Hr'].
    rewrite Hr in Hr'. simplify_eq. by eexists.
Qed.
End Constructor.

Section ConstructorFailures.
Context `{Externals}.

(** On a switchback without exits the unit finds only the library's
    members, and calling them calls no exit function. *)
Lemma library_calls_no_exit f r inputs env c g args :
  may_issue [RunFn f r inputs library_members env] c -> c <> CallExit g args.
Proof.
  intros Hi ->.
  apply issued_cons in Hi as [?|[(t' & [Hb|Hu] & Hi)|Hi]];
    [done|inversion Hb| |by apply issued_nil in Hi].
  assert (Forall (fun c => is_leaf c /\ forall g a, c <> CallExit g a) t') as Hl.
  { inversion Hu as [? ? ? ? ? name m a Hl | ? ? ? ? ? a]; subst.
    - apply library_members_spec in Hl as [-> | [-> | ->]]; simpl;
        repeat constructor; done.
    - unfold switchback_apply. destruct (truthy _).
      + change (invoke_named library_members "error" a)
          with [SwitchbackUnhandled "error" a].
        repeat constructor; done.
      + change (invoke_named library_members "success" (tl a))
          with [SwitchbackUnhandled "success" (tl a)].
        repeat constructor; done. }
  assert (Forall is_leaf t') as Hleaf.
  { eapply Forall_impl; [exact Hl|]. intros c [Hc _]. exact Hc. }
  apply issued_of_leaves in Hi as [Hin _]; [|tauto|done].
  rewrite Forall_forall in Hl. destruct (Hl _ Hin) as [_ Hne].
  by apply (Hne g args).
Qed.

(** X19. The dependencies are loaded in order up to the first one that
    cannot be required: the error is about that one, the machine's
    [_dependencies] hold exactly the ones before it, and the ones after it
    are not loaded even if they could be.  The error goes to the
    definition's [onError] when it has one, and the machine is still
    constructed; otherwise the constructor throws. *)
Theorem loading_stops_at_the_first_failure env d dependenciesModuleContext c
    pre name v post :
  truthy (def_fn d) = true ->
  chosen_context env d dependenciesModuleContext = Some c ->
  def_dependencies d = Some (pre ++ (name, v) :: post) ->
  Forall (resolvable c) pre ->
  name <> "node-machine" ->
  ctx_require c name = None ->
  let err := CannotFind name (def_moduleName d) in
  (truthy (def_onError d) = false ->
   Machine_constructor env (Definition_ d) dependenciesModuleContext = Throws err) /\
  (truthy (def_onError d) = true ->
   exists this loaded,
     Machine_constructor env (Definition_ d) dependenciesModuleContext
       = Constructs this (Some (def_onError d, err)) /\
     _dependencies (core this) = VObj (fresh_dependencies env) loaded /\
     forall k, loaded !! k =
               if decide (k ∈ pre.*1) then Some (resolved c (machine_clone env) k)
               else None).
Proof.
  intros Hfn Hctx Hdeps Hall Hn Hreq err.
  unfold Machine_constructor. fold (chosen_context env d dependenciesModuleContext).
  rewrite Hfn, Hctx, Hdeps. simpl.
  destruct (require_until_failure c (machine_clone env) (def_onError d)
              (def_moduleName d) pre name v post ∅ Hall Hn Hreq)
    as (loaded & -> & Hl).
  unfold error. split; intros ->; [done|].
  eexists _, loaded. split; [done|]. split; [done|].
  intros k. rewrite Hl. by rewrite lookup_empty.
Qed.

(** X20. A machine whose construction reports no error starts with no
    inputs and no exits, whatever the definition held, and with every
    dependency stored under its name; so the plain [exec] of the new
    machine runs [fn] with empty inputs, the switchback of an empty exit
    table, which has nothing but what node-switchback puts on it, and the
    dependencies as loaded; no exit function is called in such a run,
    whatever the unit does with the switchback. *)
Theorem new_machine_runs_with_its_dependencies env d dependenciesModuleContext this :
  Machine_constructor env (Definition_ d) dependenciesModuleContext
    = Constructs this None ->
  _configuredInputs (core this) = ∅ /\
  _configuredExits (core this) = ∅ /\
  (forall c name v,
      chosen_context env d dependenciesModuleContext = Some c ->
      (name, v) ∈ default [] (def_dependencies d) ->
      get name (_dependencies (core this)) = resolved c (machine_clone env) name) /\
  (exec VUndefined (core this)).2 =
    [RunFn (def_fn d) (ThisMachine (core this)) ∅ (switchback ∅)
       (_dependencies (core this))] /\
  switchback ∅ = library_members /\
  (forall c f args, may_issue (exec VUndefined (core this)).2 c -> c <> CallExit f args).
Proof.
  unfold Machine_constructor. fold (chosen_context env d dependenciesModuleContext).
  destruct (truthy (def_fn d)); simpl; [|done].
  destruct (require_dependencies _ _ _ _ _ _) as [loaded r] eqn:Hr.
  destruct r as [[err|handler err]|]; try done. intros [= <-]. simpl.
  assert (switchback ∅ = library_members) as Hempty.
  { apply map_eq. intros k. by rewrite switchback_lookup, lookup_empty. }
  split; [done|]. split; [done|]. split; [|split; [done|split; [done|]]]; cycle 1.
  { intros c f args Hi. unfold exec in Hi. cbn [truthy fst snd] in Hi.
    rewrite Hempty in Hi. by eapply library_calls_no_exit. }
  intros c name v Hctx Hin. rewrite Hctx in Hr.
  assert (Forall (resolvable c) (default [] (def_dependencies d))) as Hall.
  { destruct (proj1 (require_succeeds_iff (Some c) (machine_clone env) (def_onError d)
                       (def_moduleName d) (default [] (def_dependencies d)) ∅)
                (ex_intro _ loaded Hr)) as [Hnil|(c' & [= <-] & Hall)]; [|done].
    rewrite Hnil in Hin. by apply elem_of_nil in Hin. }
  destruct (require_all c (machine_clone env) (def_onError d) (def_moduleName d)
              _ ∅ Hall) as (loaded' & Hr' & Hl).
  rewrite Hr in Hr'. simplify_eq. rewrite Hl.
  rewrite decide_True; [done|].
  apply list_elem_of_fmap. by exists (name, v).
Qed.

(** X21. A definition that is not an object, or whose [fn] is falsy, makes
    the constructor throw [MACHINE_DEFINITION_INVALID]: the error is raised
    before the definition is copied to the machine, so an [onError] that the
    definition carries is not called; it is called for errors of the
    dependencies. *)
Theorem invalid_definition_always_throws env machineDefinition dependenciesModuleContext r :
  Machine_constructor env machineDefinition dependenciesModuleContext = Rejects r ->
  r = Thrown DefinitionInvalid /\
  code DefinitionInvalid = "MACHINE_DEFINITION_INVALID" /\
  (match machineDefinition with
   | NotAnObject v => truthy v = true
   | Definition_ d => truthy (def_fn d) = false
   end) /\
  (forall d, machineDefinition = Definition_ d -> truthy (def_onError d) = true ->
             forall err, error (def_onError d) err = Handled (def_onError d) err).
Proof.
  unfold Machine_constructor. destruct machineDefinition as [v|d].
  - destruct (truthy v); simpl; [|done]. intros [= <-]. repeat split; done.
  - destruct (truthy (def_fn d)); simpl.
    + destruct (require_dependencies _ _ _ _ _ _) as [loaded [[err|handler err]|]]; done.
    + intros [= <-]. repeat split; try done.
      intros d' [= <-] Hh err. unfold error. by rewrite Hh.
Qed.

(** X22. Without a module to require from, a definition without
    dependencies is constructed all the same, and a definition with
    dependencies fails on the first of them with [MODULE_NOT_FOUND], be it
    ['node-machine'], and loads none. *)
Theorem no_context_fails_the_first_dependency env d dependenciesModuleContext :
  truthy (def_fn d) = true ->
  chosen_context env d dependenciesModuleContext = None ->
  let err := NoContext (def_moduleName d) in
  code err = "MODULE_NOT_FOUND" /\
  (default [] (def_dependencies d) = [] ->
   exists this,
     Machine_constructor env (Definition_ d) dependenciesModuleContext
       = Constructs this None /\
     _dependencies (core this) = VObj (fresh_dependencies env) ∅) /\
  (default [] (def_dependencies d) <> [] ->
   (truthy (def_onError d) = false ->
    Machine_constructor env (Definition_ d) dependenciesModuleContext = Throws err) /\
   (truthy (def_onError d) = true ->
    exists this,
      Machine_constructor env (Definition_ d) dependenciesModuleContext
        = Constructs this (Some (def_onError d, err)) /\
      _dependencies (core this) = VObj (fresh_dependencies env) ∅)).
Proof.
  intros Hfn Hctx err. split; [done|].
  unfold Machine_constructor. fold (chosen_context env d dependenciesModuleContext).
  rewrite Hfn, Hctx. simpl. split.
  - intros ->. simpl. by eexists.
  - intros Hne. destruct (default [] (def_dependencies d)) as [|[name v] deps]; [done|].
    simpl. unfold error. split; intros ->; [done|]. by eexists.
Qed.
End ConstructorFailures.

Lemma loading_stops_at_the_first_failure_witness :
  exists this,
    Machine_constructor Demo.surroundings_of_constructor
      (Definition_ Demo.broken_definition) (Some Demo.helper_context)
    = Constructs this (Some (VFun 8, CannotFind "missing" (VStr "sample-machinepack"))) /\
    get "helper" (_dependencies (core this)) = VFun 6 /\
    get "node-machine" (_dependencies (core this)) = VUndefined.
Proof.
  destruct (loading_stops_at_the_first_failure Demo.surroundings_of_constructor
              Demo.broken_definition (Some Demo.helper_context) Demo.helper_context
              [("helper", VStr "~1.0.0")] "missing" (VStr "*")
              [("node-machine", VStr "*")]) as [_ Hh].
  - reflexivity.
  - reflexivity.
  - reflexivity.
  - constructor; [right; by eexists|constructor].
  - discriminate.
  - reflexivity.
  - destruct (Hh eq_refl) as (this & loaded & Hc & Hd & Hl).
    exists this. split; [exact Hc|]. rewrite Hd. unfold get. rewrite !Hl.
    split; reflexivity.
Defined.

Lemma new_machine_runs_with_its_dependencies_witness :
  exists this,
    Machine_constructor Demo.surroundings_of_constructor
      (Definition_ Demo.helper_definition) (Some Demo.helper_context)
    = Constructs this None /\
    get "helper" (_dependencies (core this)) = VFun 6 /\
    get "node-machine" (_dependencies (core this)) = VFun 9.
Proof.
  eexists. split; [reflexivity|].
  destruct (new_machine_runs_with_its_dependencies (H := Sample.externals)
              Demo.surroundings_of_constructor
              Demo.helper_definition (Some Demo.helper_context) _ eq_refl)
    as (_ & _ & Hdeps & _).
  split.
  - apply (Hdeps Demo.helper_context "helper" (VStr "~1.0.0") eq_refl).
    apply list_elem_of_here.
  - apply (Hdeps Demo.helper_context "node-machine" (VStr "*") eq_refl).
    apply list_elem_of_further, list_elem_of_here.
Defined.

Lemma invalid_definition_always_throws_witness :
  Machine_constructor Demo.surroundings_of_constructor
    (Definition_
       {| def_fn := VUndefined;
          def_dependencies := None;
          def_moduleName := VStr "sample-machinepack";
          def_onError := VFun 8;
          def_onWarn := VUndefined;
          def_cacheSettings := VUndefined;
          def_configuredContexts := VUndefined |})
    None
  = Rejects (Thrown DefinitionInvalid).
Proof.
  set (d := {| def_fn := VUndefined; def_dependencies := None;
               def_moduleName := VStr "sample-machinepack"; def_onError := VFun 8;
               def_onWarn := VUndefined; def_cacheSettings := VUndefined;
               def_configuredContexts := VUndefined |}).
  destruct (invalid_definition_always_throws Demo.surroundings_of_constructor
              (Definition_ d) None (Thrown DefinitionInvalid) eq_refl) as [Hr _].
  reflexivity.
Defined.

Lemma no_context_fails_the_first_dependency_witness :
  Machine_constructor Demo.surroundings_of_constructor
    (Definition_ Demo.helper_definition) None
  = Throws (NoContext (VStr "sample-machinepack")).
Proof.
  destruct (no_context_fails_the_first_dependency Demo.surroundings_of_constructor
              Demo.helper_definition None eq_refl eq_refl) as (_ & _ & Hdeps).
  destruct (Hdeps ltac:(discriminate)) as [Ht _].
  exact (Ht eq_refl).
Defined.
